(** * CoursePilot: the course organizer's store, dialogs and Upcoming ranking

    A shallow embedding of [college-course-organizer.cpp].  The program is a
    Qt 6 desktop application over one SQLite connection.  The embedding keeps
    - the four tables created by [runMigrations], with the constraints the
      DDL states (AUTOINCREMENT keys, [UNIQUE] on [users.username], the
      [CHECK] on [semesters.term]); the DDL declares foreign keys, but the
      program never issues [PRAGMA foreign_keys], so SQLite does not
      enforce them and neither does the model;
    - the connection: the database as the session sees it, the snapshot a
      pending [BEGIN] took, and the outcome of every [QSqlQuery::exec] as
      the storage engine decides it (the program tests that result in most
      places, so a statement that fails is part of its behaviour);
    - the slots that read or write the store, statement by statement,
      the constructors of the dialogs with the widgets they fill, and
      [runMigrations] over a file whose tables may be missing;
    - [std::priority_queue<Assignment, std::vector<Assignment>, DueSooner>]
      as the container adaptor the standard prescribes ([push_back] then
      [std::push_heap]; [std::pop_heap] then [pop_back]) with the heap
      algorithms of the GNU C++ library.

    Integers of the program ([int] ids, [qint64] seconds and milliseconds)
    are [Z]: row ids come from AUTOINCREMENT and due dates from a
    [QDateTimeEdit] (years 1752 to 9999), far from the 32 and 64 bit
    limits. *)

From stdpp Require Import base option list strings sorting.
From Stdlib Require Import ZArith Lia ZifyNat.

Local Open Scope string_scope.
Local Open Scope list_scope.
Local Open Scope Z_scope.

(** ** Qt value types *)

(** [QDateTime]: an instant with millisecond resolution and the time
    specification it is presented in.  [toUTC] and [toLocalTime] change the
    presentation only; comparison and the epoch conversions read the
    instant. *)
Inductive TimeSpec := LocalTime | UTC.

Record QDateTime := mkQDateTime {
  msecsSinceEpoch : Z;
  timeSpec : TimeSpec
}.

Definition toUTC (d : QDateTime) : QDateTime :=
  mkQDateTime (msecsSinceEpoch d) UTC.

Definition toLocalTime (d : QDateTime) : QDateTime :=
  mkQDateTime (msecsSinceEpoch d) LocalTime.

(** [QDateTime::toSecsSinceEpoch] is [toMSecsSinceEpoch() / 1000] on
    [qint64], a division that truncates toward zero. *)
Definition toSecsSinceEpoch (d : QDateTime) : Z :=
  msecsSinceEpoch d `quot` 1000.

Definition fromSecsSinceEpoch (secs : Z) : QDateTime :=
  mkQDateTime (secs * 1000) LocalTime.

(** [operator>] on [QDateTime] compares instants. *)
Definition QDateTime_gt (a b : QDateTime) : bool :=
  bool_decide (msecsSinceEpoch b < msecsSinceEpoch a).

(** The wall clock a reader in a zone [offset] seconds east of Greenwich
    sees for an instant; only the presentation layer uses it. *)
Definition wallClockMSecs (offsetSecs : Z) (d : QDateTime) : Z :=
  match timeSpec d with
  | UTC => msecsSinceEpoch d
  | LocalTime => msecsSinceEpoch d + offsetSecs * 1000
  end.

Definition QByteArray := string.

(** ** Domain types and enum mapping *)

Inductive AssignType := HW | Quiz | Midterm | Final | Project | Essay | Other.

Definition toString (t : AssignType) : string :=
  match t with
  | HW => "HW"
  | Quiz => "Quiz"
  | Midterm => "Midterm"
  | Final => "Final"
  | Project => "Project"
  | Essay => "Essay"
  | Other => "Other"
  end.

Definition parseAssignType (s : string) : AssignType :=
  if bool_decide (s = "HW") then HW
  else if bool_decide (s = "Quiz") then Quiz
  else if bool_decide (s = "Midterm") then Midterm
  else if bool_decide (s = "Final") then Final
  else if bool_decide (s = "Project") then Project
  else if bool_decide (s = "Essay") then Essay
  else Other.

Record Assignment := mkAssignment {
  id : Z;
  courseId : Z;
  type : AssignType;
  title : string;
  dueAtUtc : QDateTime;
  topics : option string;
  notes : option string
}.

(** Min-heap comparator for the Upcoming deadlines (soonest first). *)
Definition DueSooner (a b : Assignment) : bool :=
  QDateTime_gt (dueAtUtc a) (dueAtUtc b).

(** ** The tables of [runMigrations] *)

Record UserRow := mkUserRow {
  u_id : Z;
  u_username : string;
  u_password_hash : QByteArray;
  u_created_at : Z
}.

Record SemesterRow := mkSemesterRow {
  s_id : Z;
  s_term : string;
  s_year : Z
}.

Record CourseRow := mkCourseRow {
  c_id : Z;
  c_user_id : Z;
  c_semester_id : Z;
  c_code : string;
  c_name : string;
  c_color_hex : string
}.

(** [topics] and [notes] are the two nullable columns: [None] is SQL NULL. *)
Record AssignmentRow := mkAssignmentRow {
  a_id : Z;
  a_course_id : Z;
  a_type : string;
  a_title : string;
  a_due_at_utc : Z;
  a_topics : option string;
  a_notes : option string
}.

(** A database file: each table as the list of its rows in the order a
    scan delivers them ([INSERT] adds at the end), and [sqlite_sequence],
    the largest rowid AUTOINCREMENT has handed out per table. *)
Record Db := mkDb {
  users : list UserRow;
  semesters : list SemesterRow;
  courses : list CourseRow;
  assignments : list AssignmentRow;
  seq_users : Z;
  seq_semesters : Z;
  seq_courses : Z;
  seq_assignments : Z
}.

(** The database right after [runMigrations] on a fresh file. *)
Definition emptyDb : Db := mkDb [] [] [] [] 0 0 0 0.

(** AUTOINCREMENT: one more than the largest rowid the table holds or has
    ever held. *)
Definition next_rowid (ids : list Z) (seq : Z) : Z :=
  Z.max (foldr Z.max 0 ids) seq + 1.

(** ** Statements *)

(** A statement, once the engine carries it out, either fails on a
    constraint ([None]) or yields a result and the database after it. *)
Definition Statement (R : Type) := Db → option (R * Db).

(** [SELECT id, password_hash FROM users WHERE username = ?] *)
Definition select_user (name : string) : Statement (list (Z * QByteArray)) := λ db,
  Some ((λ u, (u_id u, u_password_hash u)) <$>
          filter (λ u, u_username u = name) (users db), db).

(** [INSERT INTO users(username, password_hash, created_at) VALUES(?,?,?)];
    [username] is [UNIQUE]. The result is [lastInsertId]. *)
Definition insert_user (name : string) (hash : QByteArray) (now : Z)
  : Statement Z := λ db,
  if bool_decide (name ∈ u_username <$> users db) then None
  else
    let rowid := next_rowid (u_id <$> users db) (seq_users db) in
    Some (rowid,
          mkDb (users db ++ [mkUserRow rowid name hash now])
               (semesters db) (courses db) (assignments db)
               rowid (seq_semesters db) (seq_courses db) (seq_assignments db)).

(** [SELECT id FROM semesters WHERE term=? AND year=?] *)
Definition select_semester (term : string) (year : Z) : Statement (list Z) := λ db,
  Some (s_id <$> filter (λ s, s_term s = term ∧ s_year s = year) (semesters db), db).

(** [INSERT INTO semesters(term, year) VALUES(?,?)]; the table has the
    [CHECK(term IN ('Fall','Spring'))] and no uniqueness constraint. *)
Definition insert_semester (term : string) (year : Z) : Statement Z := λ db,
  if bool_decide (term = "Fall" ∨ term = "Spring") then
    let rowid := next_rowid (s_id <$> semesters db) (seq_semesters db) in
    Some (rowid,
          mkDb (users db) (semesters db ++ [mkSemesterRow rowid term year])
               (courses db) (assignments db)
               (seq_users db) rowid (seq_courses db) (seq_assignments db))
  else None.

(** [INSERT INTO courses(user_id, semester_id, code, name, color_hex)
    VALUES(?,?,?,?,?)] *)
Definition insert_course (userId semesterId : Z) (code name color : string)
  : Statement Z := λ db,
  let rowid := next_rowid (c_id <$> courses db) (seq_courses db) in
  Some (rowid,
        mkDb (users db) (semesters db)
             (courses db ++ [mkCourseRow rowid userId semesterId code name color])
             (assignments db)
             (seq_users db) (seq_semesters db) rowid (seq_assignments db)).

(** [UPDATE courses SET code=?, name=?, color_hex=? WHERE id=?]: every row
    the WHERE clause selects is rewritten; selecting none is no error. *)
Definition update_course (code name color : string) (courseId : Z)
  : Statement unit := λ db,
  Some ((),
        mkDb (users db) (semesters db)
             ((λ c, if bool_decide (c_id c = courseId)
                    then mkCourseRow (c_id c) (c_user_id c) (c_semester_id c)
                                     code name color
                    else c) <$> courses db)
             (assignments db)
             (seq_users db) (seq_semesters db) (seq_courses db) (seq_assignments db)).

(** [SELECT code FROM courses WHERE id=?] *)
Definition select_course_code (courseId : Z) : Statement (list string) := λ db,
  Some (c_code <$> filter (λ c, c_id c = courseId) (courses db), db).

(** [DELETE FROM courses WHERE id=?] *)
Definition delete_course (courseId : Z) : Statement unit := λ db,
  Some ((),
        mkDb (users db) (semesters db)
             (filter (λ c, c_id c ≠ courseId) (courses db))
             (assignments db)
             (seq_users db) (seq_semesters db) (seq_courses db) (seq_assignments db)).

(** [INSERT INTO assignments(course_id, type, title, due_at_utc, topics,
    notes) VALUES(?,?,?,?,?,?)] *)
Definition insert_assignment (courseId : Z) (type title : string) (due : Z)
    (topics notes : option string) : Statement Z := λ db,
  let rowid := next_rowid (a_id <$> assignments db) (seq_assignments db) in
  Some (rowid,
        mkDb (users db) (semesters db) (courses db)
             (assignments db ++
                [mkAssignmentRow rowid courseId type title due topics notes])
             (seq_users db) (seq_semesters db) (seq_courses db) rowid).

(** [UPDATE assignments SET type=?, title=?, due_at_utc=?, topics=?,
    notes=? WHERE id=?] *)
Definition update_assignment (type title : string) (due : Z)
    (topics notes : option string) (assignmentId : Z) : Statement unit := λ db,
  Some ((),
        mkDb (users db) (semesters db) (courses db)
             ((λ a, if bool_decide (a_id a = assignmentId)
                    then mkAssignmentRow (a_id a) (a_course_id a)
                                         type title due topics notes
                    else a) <$> assignments db)
             (seq_users db) (seq_semesters db) (seq_courses db) (seq_assignments db)).

(** [DELETE FROM assignments WHERE course_id=?] *)
Definition delete_assignments_of (courseId : Z) : Statement unit := λ db,
  Some ((),
        mkDb (users db) (semesters db) (courses db)
             (filter (λ a, a_course_id a ≠ courseId) (assignments db))
             (seq_users db) (seq_semesters db) (seq_courses db) (seq_assignments db)).

(** [DELETE FROM assignments WHERE id=?] *)
Definition delete_assignment (assignmentId : Z) : Statement unit := λ db,
  Some ((),
        mkDb (users db) (semesters db) (courses db)
             (filter (λ a, a_id a ≠ assignmentId) (assignments db))
             (seq_users db) (seq_semesters db) (seq_courses db) (seq_assignments db)).

(** [ORDER BY]: the rows in ascending order of the key.  The sorter keeps
    rows with equal keys in the order in which the scan delivers them, so
    the model inserts each row in front of the rows that do not come
    before it, from the last row of the scan to the first. *)
Section OrderBy.

Context {Row : Type} (le : relation Row) `{∀ x y, Decision (le x y)}.

Fixpoint order_insert (x : Row) (sorted : list Row) : list Row :=
  match sorted with
  | [] => [x]
  | y :: rest => if decide (le x y) then x :: y :: rest else y :: order_insert x rest
  end.

Definition order_by (rows : list Row) : list Row := foldr order_insert [] rows.

End OrderBy.

(** [ORDER BY a.due_at_utc] *)
Definition due_le (a b : AssignmentRow) : Prop := a_due_at_utc a ≤ a_due_at_utc b.

Global Instance due_le_dec a b : Decision (due_le a b) := Z_le_dec _ _.

(** The inner join of the Upcoming query, before ordering: one row per
    pair of an assignment and a course of the scope it belongs to. *)
Definition upcoming_join (semesterId userId : Z) (db : Db) : list AssignmentRow :=
  a ← assignments db;
  c ← courses db;
  if bool_decide (a_course_id a = c_id c ∧
                  c_semester_id c = semesterId ∧ c_user_id c = userId)
  then [a] else [].

(** [SELECT a.id, a.course_id, a.type, a.title, a.due_at_utc, a.topics
     FROM assignments a JOIN courses c ON a.course_id = c.id
     WHERE c.semester_id = ? AND c.user_id = ? ORDER BY a.due_at_utc] *)
Definition select_upcoming (semesterId userId : Z) : Statement (list AssignmentRow) := λ db,
  Some (order_by due_le (upcoming_join semesterId userId db), db).

(** ** The connection *)

(** What the one connection of the process holds: the database as its
    statements see it, the database as it was at [BEGIN] while a
    transaction is open, and the results the engine will give to the coming
    [exec] calls ([true]: the statement is carried out; [false]: [exec]
    returns [false] and nothing changes; past the end of the list every
    statement is carried out). *)
Record Session := mkSession {
  view : Db;
  snapshot : option Db;
  outcomes : list bool
}.

(** No transaction is open. *)
Definition idle (db : Db) (engine : list bool) : Session :=
  mkSession db None engine.

(** What is on disk: outside a transaction the view, inside one the
    database as it was when the transaction began. *)
Definition durable (s : Session) : Db :=
  default (view s) (snapshot s).

(** The slots thread the connection through their statements. *)
Definition M (A : Type) : Type := Session → A * Session.

Definition ret {A} (a : A) : M A := λ s, (a, s).

Definition bind {A B} (m : M A) (k : A → M B) : M B :=
  λ s, let '(a, s') := m s in k a s'.

Notation "x <- c1 ;; c2" := (bind c1 (λ x, c2))
  (at level 100, c1 at next level, right associativity).
Notation "c1 ;; c2" := (bind c1 (λ _, c2))
  (at level 100, right associativity).

(** [QSqlDatabase::transaction]: [BEGIN]. SQLite refuses a [BEGIN] inside a
    transaction. *)
Definition transaction : M bool := λ s,
  match snapshot s with
  | None => (true, mkSession (view s) (Some (view s)) (outcomes s))
  | Some _ => (false, s)
  end.

(** [QSqlDatabase::commit] *)
Definition commit : M bool := λ s,
  match snapshot s with
  | Some _ => (true, mkSession (view s) None (outcomes s))
  | None => (false, s)
  end.

(** [QSqlDatabase::rollback] *)
Definition rollback : M bool := λ s,
  match snapshot s with
  | Some before => (true, mkSession before None (outcomes s))
  | None => (false, s)
  end.

(** Whether the engine carries out the next statement. *)
Definition nextOutcome (engine : list bool) : bool := hd true engine.

(** [QSqlQuery::exec] of a prepared statement: [Some r] when [exec] returns
    [true], with [r] what the query then offers ([next]/[value],
    [lastInsertId]); [None] when it returns [false], be it that the engine
    fails or that a constraint rejects the statement. *)
Definition exec {R} (stmt : Statement R) : M (option R) := λ s,
  let rest := tail (outcomes s) in
  if nextOutcome (outcomes s) then
    match stmt (view s) with
    | Some (r, db') => (Some r, mkSession db' (snapshot s) rest)
    | None => (None, mkSession (view s) (snapshot s) rest)
    end
  else (None, mkSession (view s) (snapshot s) rest).

(** ** What a slot shows or returns *)

Inductive MessageBox :=
  | warning (title text : string)
  | information (title text : string).

(** A dialog's slot either calls [accept()], having stored a value in the
    dialog, or shows a message box and leaves the dialog open. *)
Inductive Reply (A : Type) :=
  | Accepted (a : A)
  | Shown (box : MessageBox).
Arguments Accepted {A} a.
Arguments Shown {A} box.

(** ** AuthDialog: Register/Login *)

Section Auth.

(** [QCryptographicHash::hash(pw.toUtf8(), QCryptographicHash::Sha256)] *)
Variable Sha256 : string → QByteArray.

Definition hashPassword (pw : string) : QByteArray := Sha256 pw.

(** [Accepted id]: [userId_ = id; accept()]. *)
Definition onLogin (user_ pass_ : string) : M (Reply Z) :=
  q <- exec (select_user user_) ;;
  match q with
  | Some ((id, stored) :: _) =>
      if bool_decide (stored ≠ hashPassword pass_)
      then ret (Shown (warning "Login failed" "Incorrect password."))
      else ret (Accepted id)
  | _ => ret (Shown (warning "Login failed" "User not found."))
  end.

(** [now] is [QDateTime::currentSecsSinceEpoch()]. *)
Definition onRegister (user_ pass_ : string) (now : Z) : M MessageBox :=
  transaction ;;
  q <- exec (insert_user user_ (hashPassword pass_) now) ;;
  match q with
  | None =>
      rollback ;;
      ret (warning "Register failed" "Username exists?")
  | Some _ =>
      commit ;;
      ret (information "Registered" "User created. Please login.")
  end.

End Auth.

(** ** SemesterPicker: select semester *)

(** The slot always accepts; the result is the dialog's [semesterId], which
    starts as [-1]. *)
Definition SemesterPicker_onOk (term_ : string) (year_ : Z) : M Z :=
  q <- exec (select_semester term_ year_) ;;
  match q with
  | Some (id :: _) => ret id
  | _ =>
      transaction ;;
      ins <- exec (insert_semester term_ year_) ;;
      match ins with
      | Some lastInsertId => commit ;; ret lastInsertId
      | None => rollback ;; ret (-1)
      end
  end.

(** ** CourseDialog: add/edit course *)

Definition defaultColor : string := "#4F46E5".

(** [Accepted id]: [courseId = id; accept()]. *)
Definition CourseDialog_onSave (userId_ semId_ editCourseId_ : Z)
    (code_ name_ color_ : string) : M (Reply Z) :=
  transaction ;;
  if bool_decide (editCourseId_ < 0) then
    ins <- exec (insert_course userId_ semId_ code_ name_
                   (if bool_decide (color_ = "") then defaultColor else color_)) ;;
    match ins with
    | Some lastInsertId => commit ;; ret (Accepted lastInsertId)
    | None => rollback ;; ret (Shown (warning "Error" "Could not save course."))
    end
  else
    upd <- exec (update_course code_ name_
                   (if bool_decide (color_ = "") then defaultColor else color_)
                   editCourseId_) ;;
    match upd with
    | Some _ => commit ;; ret (Accepted editCourseId_)
    | None => rollback ;; ret (Shown (warning "Error" "Could not update course."))
    end.

(** ** AssignmentDialog: add/edit assignment *)

(** [text.isEmpty() ? QVariant(QString()) : QVariant(text)]: an empty field
    is bound as a null string, which the driver stores as NULL. *)
Definition nullIfEmpty (text : string) : option string :=
  if bool_decide (text = "") then None else Some text.

(** [Accepted id]: [assignmentId = id; accept()]. [dueDate_] is
    [dueDate_->dateTime()]. *)
Definition AssignmentDialog_onSave (courseId_ editAssignmentId_ : Z)
    (type_ title_ : string) (dueDate_ : QDateTime) (topics_ notes_ : string)
  : M (Reply Z) :=
  transaction ;;
  if bool_decide (editAssignmentId_ < 0) then
    ins <- exec (insert_assignment courseId_ type_ title_
                   (toSecsSinceEpoch (toUTC dueDate_))
                   (nullIfEmpty topics_) (nullIfEmpty notes_)) ;;
    match ins with
    | Some lastInsertId => commit ;; ret (Accepted lastInsertId)
    | None => rollback ;; ret (Shown (warning "Error" "Could not save assignment."))
    end
  else
    upd <- exec (update_assignment type_ title_
                   (toSecsSinceEpoch (toUTC dueDate_))
                   (nullIfEmpty topics_) (nullIfEmpty notes_)
                   editAssignmentId_) ;;
    match upd with
    | Some _ => commit ;; ret (Accepted editAssignmentId_)
    | None => rollback ;; ret (Shown (warning "Error" "Could not update assignment."))
    end.

(** What the edit dialog's constructor puts into [dueDate_] for a stored
    [due_at_utc]. *)
Definition AssignmentDialog_loadDue (due_at_utc : Z) : QDateTime :=
  toLocalTime (fromSecsSinceEpoch due_at_utc).

(** ** MainWindow: the slots that write *)

(** [currentItem] is the id held by the selected row of the course list,
    [answerYes] the answer to the confirmation box.  The writes are
    modelled; the calls that re-read the lists afterwards ([loadCourses],
    [reloadUpcoming]) change nothing in the store. *)
Definition deleteCourse (currentItem : option Z) (answerYes : bool)
  : M (option MessageBox) :=
  match currentItem with
  | None => ret (Some (information "Delete course" "Select a course."))
  | Some courseId =>
      if answerYes then
        transaction ;;
        exec (delete_assignments_of courseId) ;;
        exec (delete_course courseId) ;;
        commit ;;
        ret None
      else ret None
  end.

(** [currentItem] is the id held by the selected course, [currentRow] the
    id held by the selected row of the assignment table. The slot opens no
    transaction. *)
Definition deleteAssignment (currentItem currentRow : option Z) (answerYes : bool)
  : M (option MessageBox) :=
  match currentItem, currentRow with
  | None, _ => ret (Some (information "Delete assignment" "Select a course."))
  | Some _, None => ret (Some (information "Delete assignment" "Select an assignment."))
  | Some _, Some assignId =>
      if answerYes then exec (delete_assignment assignId) ;; ret None
      else ret None
  end.

(** ** std::priority_queue over std::vector *)

Section PriorityQueue.

Local Open Scope nat_scope.

Context {T : Type}.

(** The comparator: [comp a b] orders [a] before [b], so the element on
    top of the queue is one that [comp] orders last. *)
Variable comp : T → T → bool.

(** [std::__push_heap(first, holeIndex, topIndex, value, comp)]: the hole
    climbs while its parent is ordered before [value].  Every round
    moves the hole to a smaller index, so [fuel = holeIndex] rounds are
    never used up before the loop condition fails. *)
Fixpoint push_heap_loop (fuel : nat) (v : list T)
    (holeIndex topIndex : nat) (value : T) : list T :=
  let parent := (holeIndex - 1) / 2 in
  match fuel, v !! parent with
  | S fuel, Some p =>
      if bool_decide (topIndex < holeIndex) && comp p value
      then push_heap_loop fuel (<[holeIndex := p]> v) parent topIndex value
      else <[holeIndex := value]> v
  | _, _ => <[holeIndex := value]> v
  end.

Definition std_push_heap_at (v : list T) (holeIndex topIndex : nat) (value : T)
  : list T :=
  push_heap_loop holeIndex v holeIndex topIndex value.

(** [std::push_heap(first, last, comp)]: the new element is the last one
    of the range. *)
Definition std_push_heap (v : list T) : list T :=
  match last v with
  | Some value => std_push_heap_at v (length v - 1) 0 value
  | None => v
  end.

(** The first loop of [std::__adjust_heap(first, holeIndex, len, value,
    comp)]: while the hole has two children, the child that [comp] does
    not order before the other moves up into it.  The result is the
    vector and the index of the hole ([secondChild] and [holeIndex]
    agree whenever the loop condition is tested). *)
Fixpoint adjust_heap_loop (fuel : nat) (v : list T) (holeIndex len : nat)
  : list T * nat :=
  match fuel with
  | O => (v, holeIndex)
  | S fuel =>
      if bool_decide (holeIndex < (len - 1) / 2) then
        let secondChild := 2 * (holeIndex + 1) in
        match v !! secondChild, v !! (secondChild - 1) with
        | Some second, Some sibling =>
            if comp second sibling
            then adjust_heap_loop fuel (<[holeIndex := sibling]> v) (secondChild - 1) len
            else adjust_heap_loop fuel (<[holeIndex := second]> v) secondChild len
        | _, _ => (v, holeIndex)
        end
      else (v, holeIndex)
  end.

(** [std::__adjust_heap]: the loop, the step for a last node with a left
    child only, then [__push_heap] from where the hole arrived. *)
Definition std_adjust_heap (v : list T) (holeIndex len : nat) (value : T)
  : list T :=
  let topIndex := holeIndex in
  let '(v1, secondChild) := adjust_heap_loop len v holeIndex len in
  let '(v2, holeIndex2) :=
    if bool_decide (len `mod` 2 = 0) && bool_decide (secondChild = (len - 2) / 2)
    then
      match v1 !! (2 * (secondChild + 1) - 1) with
      | Some only => (<[secondChild := only]> v1, 2 * (secondChild + 1) - 1)
      | None => (v1, secondChild)
      end
    else (v1, secondChild) in
  std_push_heap_at v2 holeIndex2 topIndex value.

(** [std::pop_heap(first, last, comp)]: for more than one element, the
    last one is taken out, the first one is stored in its place and the
    taken one is sifted into the shorter range from the root. *)
Definition std_pop_heap (v : list T) : list T :=
  if bool_decide (1 < length v) then
    match last v, head v with
    | Some value, Some first =>
        std_adjust_heap (<[length v - 1 := first]> v) 0 (length v - 1) value
    | _, _ => v
    end
  else v.

Definition pop_back (v : list T) : list T := take (length v - 1) v.

(** The adaptor's members, on its container [c]. *)
Definition pq_push (x : T) (c : list T) : list T := std_push_heap (c ++ [x]).
Definition pq_pop (c : list T) : list T := pop_back (std_pop_heap c).
Definition pq_top (c : list T) : option T := head c.
Definition pq_empty (c : list T) : bool :=
  match c with [] => true | _ :: _ => false end.

End PriorityQueue.

(** ** MainWindow: the Upcoming list *)

(** One entry of the [upcoming_] list widget: the assignment popped from
    the queue and the course code its label shows. *)
Record UpcomingItem := mkUpcomingItem {
  shown_assignment : Assignment;
  shown_code : string
}.

(** The label of an entry; [formatLocal] is
    [QLocale().toString(dt.toLocalTime(), QLocale::ShortFormat)]. *)
Definition itemText (formatLocal : QDateTime → string) (it : UpcomingItem) : string :=
  let a := shown_assignment it in
  let text :=
    "[" +:+ toString (type a) +:+ "] " +:+ shown_code it +:+ " — " +:+
    title a +:+ " (" +:+ formatLocal (toLocalTime (dueAtUtc a)) +:+ ")" in
  match topics a with
  | Some t => if bool_decide (t = "") then text else text +:+ "  •  " +:+ t
  | None => text
  end.

(** The [Assignment] the fetch loop builds from a row of the Upcoming
    query; the query does not select [notes]. *)
Definition fetchAssignment (r : AssignmentRow) : Assignment :=
  mkAssignment (a_id r) (a_course_id r) (parseAssignType (a_type r)) (a_title r)
               (toUTC (fromSecsSinceEpoch (a_due_at_utc r)))
               (a_topics r) None.

(** [while (q.next()) { ...; pq.push(a); }] *)
Definition pushAll (rows : list AssignmentRow) : list Assignment :=
  foldl (λ pq r, pq_push DueSooner (fetchAssignment r) pq) [] rows.

(** [while (!pq.empty() && shown < 10)], with [budget = 10 - shown]. When
    the lookup of the code yields no row, [qc.value(0)] is an invalid
    [QVariant] and its [toString()] the empty string. *)
Fixpoint showLoop (budget : nat) (pq : list Assignment) : M (list UpcomingItem) :=
  match budget with
  | O => ret []
  | S budget =>
      if pq_empty pq then ret []
      else
        match pq_top pq with
        | Some a =>
            qc <- exec (select_course_code (courseId a)) ;;
            let code := match qc with Some (code :: _) => code | _ => "" end in
            rest <- showLoop budget (pq_pop DueSooner pq) ;;
            ret (mkUpcomingItem a code :: rest)
        | None => ret []
        end
  end.

(** The result is the content of [upcoming_] when the slot returns. *)
Definition reloadUpcoming (userId_ semesterId_ : Z) : M (list UpcomingItem) :=
  if bool_decide (semesterId_ < 0) then ret []
  else
    q <- exec (select_upcoming semesterId_ userId_) ;;
    showLoop 10 (pushAll (default [] q)).

(** ** Statements of the readers *)


(** [SELECT code, name, color_hex FROM courses WHERE id=?] *)
Definition select_course (courseId : Z) : Statement (list (string * string * string)) := λ db,
  Some ((λ c, (c_code c, c_name c, c_color_hex c))
          <$> filter (λ c, c_id c = courseId) (courses db),
        db).


(** [ORDER BY code]: TEXT values compare byte by byte (the BINARY
    collation), a proper prefix before the longer text. *)
Definition code_le (a b : CourseRow) : Prop := String.le (c_code a) (c_code b).

Global Instance code_le_dec a b : Decision (code_le a b) :=
  String.le_dec (c_code a) (c_code b).

(** [SELECT id, code, name FROM courses WHERE user_id=? AND semester_id=?
    ORDER BY code]; the reader takes the three columns from the row. *)
Definition select_courses_of (userId semesterId : Z) : Statement (list CourseRow) := λ db,
  Some (order_by code_le
          (filter (λ c, c_user_id c = userId ∧ c_semester_id c = semesterId) (courses db)),
        db).

(** [SELECT id, type, title, due_at_utc, topics FROM assignments WHERE
    course_id=? ORDER BY due_at_utc]; the reader takes the five columns
    from the row. *)
Definition select_assignments_of (courseId : Z) : Statement (list AssignmentRow) := λ db,
  Some (order_by due_le (filter (λ a, a_course_id a = courseId) (assignments db)), db).

(** ** Widgets the slots read and set *)

(** [QComboBox], not editable: its entries and the index of the current
    one, [-1] when there is none. *)
Module QComboBox.

Record t := mk {
  items : list string;
  currentIndex : Z
}.

Definition new : t := mk [] (-1).







End QComboBox.

(** [QSpinBox]: the value stays within the range. *)
Module QSpinBox.

Record t := mk {
  minimum : Z;
  maximum : Z;
  value : Z
}.

Definition new : t := mk 0 99 0.




End QSpinBox.

(** [QDateTimeEdit]: the value stays between the widget's minimum and
    maximum date and time, compared as instants. *)
Module QDateTimeEdit.

Record t := mk {
  minimumDateTime : QDateTime;
  maximumDateTime : QDateTime;
  dateTime : QDateTime
}.


End QDateTimeEdit.



(** The entries of the type box of [AssignmentDialog]. *)
Definition typeItems : list string :=
  ["HW"; "Quiz"; "Midterm"; "Final"; "Project"; "Essay"; "Other"].

(** ** The constructors of the dialogs *)

Section Dialogs.

(** What a [QLineEdit] holds after [setText(s)] and a [QTextEdit] after
    [setPlainText(s)]: the widgets may shorten or normalise a text they
    are given. *)
Variable QLineEdit_setText : string → string.
Variable QTextEdit_setPlainText : string → string.

(** The fields of a [CourseDialog]. *)
Record CourseDialog := mkCourseDialog {
  cd_code_ : string;
  cd_name_ : string;
  cd_color_ : string
}.

(** The constructor: empty fields; when editing, the fields are loaded
    from the course row, if it is found. *)
Definition CourseDialog_CourseDialog (editCourseId_ : Z) : M CourseDialog :=
  if bool_decide (0 ≤ editCourseId_) then
    q <- exec (select_course editCourseId_) ;;
    match q with
    | Some ((code, name, color) :: _) =>
        ret (mkCourseDialog (QLineEdit_setText code) (QLineEdit_setText name)
                            (QLineEdit_setText color))
    | _ => ret (mkCourseDialog "" "" "")
    end
  else ret (mkCourseDialog "" "" "").





End Dialogs.

(** ** MainWindow: the slots that read *)

(** An entry of the course list: its text and the course id it holds as
    [Qt::UserRole] data. *)
Record QListWidgetItem := mkQListWidgetItem {
  lw_text : string;
  lw_data : Z
}.

(** The entries of [courses_] that the query loop of [loadCourses] adds
    (the slot then makes the first entry current and loads its
    assignments, which is [loadAssignments] below). *)
Definition loadCourses (userId_ semesterId_ : Z) : M (list QListWidgetItem) :=
  if bool_decide (semesterId_ < 0) then ret []
  else
    q <- exec (select_courses_of userId_ semesterId_) ;;
    ret ((λ c, mkQListWidgetItem (c_code c +:+ " — " +:+ c_name c) (c_id c))
           <$> default [] q).

(** A row of the assignment table: the assignment id its first cell
    holds, and the texts of the four cells. *)
Record TableRow := mkTableRow {
  tr_data : Z;
  tr_type : string;
  tr_title : string;
  tr_due : string;
  tr_topics : string
}.

(** The rows of [assigns_] when the slot returns; [currentItem] is the id
    held by the current entry of the course list and [formatLocal] is
    [QLocale().toString(dt, QLocale::ShortFormat)]. *)
Definition loadAssignments (formatLocal : QDateTime → string) (currentItem : option Z)
  : M (list TableRow) :=
  match currentItem with
  | None => ret []
  | Some courseId =>
      q <- exec (select_assignments_of courseId) ;;
      ret ((λ r, mkTableRow (a_id r) (a_type r) (a_title r)
                   (formatLocal (toLocalTime (fromSecsSinceEpoch (a_due_at_utc r))))
                   (default "" (a_topics r)))
             <$> default [] q)
  end.


(** ** The migrations *)

(** A database file as [runMigrations] finds it: each table is missing or
    holds its rows. *)
Record DbFile := mkDbFile {
  t_users : option (list UserRow);
  t_semesters : option (list SemesterRow);
  t_courses : option (list CourseRow);
  t_assignments : option (list AssignmentRow)
}.

(** [CREATE TABLE IF NOT EXISTS]: a table that exists is left as it is. *)
Definition create_table_if_not_exists {Row} (table : option (list Row))
  : option (list Row) :=
  match table with
  | Some rows => Some rows
  | None => Some []
  end.

(** The four statements run outside a transaction; the first that fails
    ends the function.  [engine] gives the outcome of each [exec]. *)
Definition runMigrations (file : DbFile) (engine : list bool) : bool * DbFile :=
  if negb (nextOutcome engine) then (false, file)
  else
    let file := mkDbFile (create_table_if_not_exists (t_users file)) (t_semesters file)
                         (t_courses file) (t_assignments file) in
    let engine := tail engine in
    if negb (nextOutcome engine) then (false, file)
    else
      let file := mkDbFile (t_users file) (create_table_if_not_exists (t_semesters file))
                           (t_courses file) (t_assignments file) in
      let engine := tail engine in
      if negb (nextOutcome engine) then (false, file)
      else
        let file := mkDbFile (t_users file) (t_semesters file)
                             (create_table_if_not_exists (t_courses file))
                             (t_assignments file) in
        let engine := tail engine in
        if negb (nextOutcome engine) then (false, file)
        else
          (true,
           mkDbFile (t_users file) (t_semesters file) (t_courses file)
                    (create_table_if_not_exists (t_assignments file))).

(** * Properties *)

(** ** What the proofs speak about *)

Section HeapOrder.

Local Open Scope nat_scope.

Context {T : Type}.

(** The queue's elements are ordered by a key: [comp a b] holds when [b]
    has the smaller key, so the top of the queue has the smallest. *)
Variable key : T → Z.

(** The index of the parent of node [i] in the implicit binary tree. *)
Definition parent (i : nat) : nat := (i - 1) / 2.

Definition heap_upto (len : nat) (v : list T) : Prop :=
  ∀ i x p, 0 < i < len → v !! i = Some x → v !! parent i = Some p →
           (key p ≤ key x)%Z.

Definition is_heap (v : list T) : Prop := heap_upto (length v) v.

Definition heap_except (len : nat) (v : list T) (hole : nat) : Prop :=
  ∀ i x p, 0 < i < len → i ≠ hole → v !! i = Some x → v !! parent i = Some p →
           (key p ≤ key x)%Z.

Definition below_ok (len : nat) (v : list T) (hole : nat) (value : T) : Prop :=
  ∀ i x, 0 < i < len → parent i = hole → v !! i = Some x →
         (key value ≤ key x)%Z.

Definition grands_ok (len : nat) (v : list T) (hole : nat) : Prop :=
  ∀ i x g, 0 < i < len → parent i = hole → 0 < hole →
           v !! i = Some x → v !! parent hole = Some g → (key g ≤ key x)%Z.

End HeapOrder.

(** ** The Upcoming queue *)

(** The instant the queue is ordered by. *)
Definition dueKey (a : Assignment) : Z := msecsSinceEpoch (dueAtUtc a).

(** The assignments the display loop pops, without the code lookups. *)
Fixpoint popLoop (budget : nat) (pq : list Assignment) : list Assignment :=
  match budget, pq_top pq with
  | S budget, Some a => a :: popLoop budget (pq_pop DueSooner pq)
  | _, _ => []
  end.

Definition due_le_assignment (a b : Assignment) : Prop := dueKey a ≤ dueKey b.

(** What an assignment row holds besides its id: the row with the id
    blanked.  Two assignments of the same content, created at different
    times, differ in their rows by the id only. *)
Definition rowContent (r : AssignmentRow) : AssignmentRow :=
  mkAssignmentRow 0 (a_course_id r) (a_type r) (a_title r) (a_due_at_utc r)
                  (a_topics r) (a_notes r).

(** The same for a fetched assignment and for an entry of the Upcoming
    list: everything of the entry but the id, which the list does not
    show. *)
Definition assignmentContent (a : Assignment) : Assignment :=
  mkAssignment 0 (courseId a) (type a) (title a) (dueAtUtc a) (topics a) (notes a).


(** The entries the display loop builds for the popped assignments [popped]:
    each with the code of the first course row carrying its [courseId], or the
    empty string when there is none or the lookup fails. *)
Fixpoint labelAll (cs : list CourseRow) (engine : list bool) (popped : list Assignment)
  : list UpcomingItem :=
  match popped with
  | [] => []
  | a :: rest =>
      mkUpcomingItem a
        (if nextOutcome engine
         then match c_code <$> filter (λ c, c_id c = courseId a) cs with
              | code :: _ => code
              | [] => ""
              end
         else "")
      :: labelAll cs (tail engine) rest
  end.

(** What [UPDATE courses SET code=?, name=?, color_hex=? WHERE id=?] makes
    of one row. *)
Definition updatedCourse (code name color : string) (courseId : Z) (c : CourseRow)
  : CourseRow :=
  if bool_decide (c_id c = courseId)
  then mkCourseRow (c_id c) (c_user_id c) (c_semester_id c) code name color
  else c.

(** The database with another [courses] table. *)
Definition withCourses (db : Db) (cs : list CourseRow) : Db :=
  mkDb (users db) (semesters db) cs (assignments db)
       (seq_users db) (seq_semesters db) (seq_courses db) (seq_assignments db).

(** What [deleteCourse] leaves in the store, by the outcomes of its two
    [DELETE] statements. *)
Definition afterDeleteCourse (courseId : Z) (assignsDeleted courseDeleted : bool)
    (db : Db) : Db :=
  mkDb (users db) (semesters db)
       (if courseDeleted then filter (λ c, c_id c ≠ courseId) (courses db)
        else courses db)
       (if assignsDeleted then filter (λ a, a_course_id a ≠ courseId) (assignments db)
        else assignments db)
       (seq_users db) (seq_semesters db) (seq_courses db) (seq_assignments db).

(** The key of a semester. *)
Definition semesterKey (s : SemesterRow) : string * Z := (s_term s, s_year s).

(** (term, year) identifies a semester: no two rows share the key. *)
Definition semesters_unique (db : Db) : Prop :=
  NoDup (semesterKey <$> semesters db).

(** The slots that reach the store, with what the user entered or
    selected. *)
Inductive Slot :=
  | Login (user_ pass_ : string)
  | Register (user_ pass_ : string) (now : Z)
  | PickSemester (term_ : string) (year_ : Z)
  | SaveCourse (userId_ semId_ editCourseId_ : Z) (code_ name_ color_ : string)
  | SaveAssignment (courseId_ editAssignmentId_ : Z) (type_ title_ : string)
      (dueDate_ : QDateTime) (topics_ notes_ : string)
  | DeleteCourse (currentItem : option Z) (answerYes : bool)
  | DeleteAssignment (currentItem currentRow : option Z) (answerYes : bool)
  | ReloadUpcoming (userId_ semesterId_ : Z).

(** The connection after a slot has run. *)
Definition fire (Sha256 : string → QByteArray) (slot : Slot) (s : Session) : Session :=
  match slot with
  | Login user_ pass_ => (onLogin Sha256 user_ pass_ s).2
  | Register user_ pass_ now => (onRegister Sha256 user_ pass_ now s).2
  | PickSemester term_ year_ => (SemesterPicker_onOk term_ year_ s).2
  | SaveCourse userId_ semId_ editCourseId_ code_ name_ color_ =>
      (CourseDialog_onSave userId_ semId_ editCourseId_ code_ name_ color_ s).2
  | SaveAssignment courseId_ editAssignmentId_ type_ title_ dueDate_ topics_ notes_ =>
      (AssignmentDialog_onSave courseId_ editAssignmentId_ type_ title_ dueDate_
         topics_ notes_ s).2
  | DeleteCourse currentItem answerYes => (deleteCourse currentItem answerYes s).2
  | DeleteAssignment currentItem currentRow answerYes =>
      (deleteAssignment currentItem currentRow answerYes s).2
  | ReloadUpcoming userId_ semesterId_ => (reloadUpcoming userId_ semesterId_ s).2
  end.

(** The due instant, in milliseconds since the epoch, that the fetch loop
    gives the assignment of a row. *)
Definition dueMSecs (r : AssignmentRow) : Z := a_due_at_utc r * 1000.

(** ** Proof tools *)

(** Reads a lookup in a vector after one of its cells was written. *)
Ltac look :=
  repeat match goal with
  | H : <[?i := _]> _ !! ?i = Some ?x |- _ =>
      rewrite list_lookup_insert_eq in H by lia;
      apply (inj Some) in H; try subst x
  | H : <[?i := _]> _ !! ?j = Some _ |- _ =>
      rewrite list_lookup_insert_ne in H by lia
  end.

(** Runs a slot on a connection whose next two outcomes are spelled out. *)
Ltac run_slot engine :=
  unfold onLogin, onRegister, CourseDialog_onSave, AssignmentDialog_onSave,
    deleteCourse, deleteAssignment, bind, ret, transaction, commit, rollback, exec,
    select_user, insert_user, insert_course, update_course, insert_assignment,
    update_assignment, delete_assignments_of, delete_course, delete_assignment;
  destruct engine as [|[|] [|[|] ?]]; cbn; try done;
  repeat (case_match; simplify_eq/=; try done).

(** ** The store as the slots leave it *)

(** What [UPDATE assignments SET type=?, title=?, due_at_utc=?, topics=?,
    notes=? WHERE id=?] makes of one row. *)
Definition updatedAssignment (type title : string) (due : Z)
    (topics notes : option string) (assignmentId : Z) (a : AssignmentRow)
  : AssignmentRow :=
  if bool_decide (a_id a = assignmentId)
  then mkAssignmentRow (a_id a) (a_course_id a) type title due topics notes
  else a.

(** The database with another [assignments] table. *)
Definition withAssignments (db : Db) (rows : list AssignmentRow) : Db :=
  mkDb (users db) (semesters db) (courses db) rows
       (seq_users db) (seq_semesters db) (seq_courses db) (seq_assignments db).

(** The keys of a table with an AUTOINCREMENT primary key: no key occurs
    twice, and every key is positive and at most the largest one handed
    out so far. *)
Definition keys_ok (ids : list Z) (seq : Z) : Prop :=
  NoDup ids ∧ Forall (λ i, 0 < i ≤ seq) ids.

(** What the constraints of the DDL and the dialogs' way of binding their
    fields guarantee about a store. *)
Record well_formed (db : Db) : Prop := mkWellFormed {
  wf_users : keys_ok (u_id <$> users db) (seq_users db);
  wf_semesters : keys_ok (s_id <$> semesters db) (seq_semesters db);
  wf_courses : keys_ok (c_id <$> courses db) (seq_courses db);
  wf_assignments : keys_ok (a_id <$> assignments db) (seq_assignments db);
  wf_usernames : NoDup (u_username <$> users db);
  wf_terms : Forall (λ s, s_term s = "Fall" ∨ s_term s = "Spring") (semesters db);
  wf_colors : Forall (λ c, c_color_hex c ≠ "") (courses db);
  wf_texts : Forall (λ a, a_topics a ≠ Some "" ∧ a_notes a ≠ Some "") (assignments db)
}.

(** A run of the program: slots fired one after the other, each with the
    outcomes the engine gives to its statements. *)
Fixpoint replay (Sha256 : string → QByteArray) (script : list (Slot * list bool))
    (db : Db) : Db :=
  match script with
  | [] => db
  | (slot, engine) :: script =>
      replay Sha256 script (view (fire Sha256 slot (idle db engine)))
  end.

(** The entry of the course list for a course row. *)
Definition courseItem (c : CourseRow) : QListWidgetItem :=
  mkQListWidgetItem (c_code c +:+ " — " +:+ c_name c) (c_id c).

(** The row of the assignment table for an assignment row. *)
Definition tableRow (formatLocal : QDateTime → string) (r : AssignmentRow) : TableRow :=
  mkTableRow (a_id r) (a_type r) (a_title r)
    (formatLocal (toLocalTime (fromSecsSinceEpoch (a_due_at_utc r))))
    (default "" (a_topics r)).

(** A database file whose four tables exist, as a store with the given
    counters. *)
Definition tables (db : Db) : DbFile :=
  mkDbFile (Some (users db)) (Some (semesters db)) (Some (courses db))
           (Some (assignments db)).

(** A file that holds no table yet. *)
Definition freshFile : DbFile := mkDbFile None None None None.

(** Settles [well_formed] for a store that is written out. *)
Ltac well_formed_by_computation :=
  split; unfold keys_ok; cbn; apply (bool_decide_unpack _); vm_compute; exact I.

(** The references the DDL declares as foreign keys: every assignment
    has its course, every course its user and its semester. *)
Record references_ok (db : Db) : Prop := mkReferencesOk {
  ref_course : Forall (λ a, a_course_id a ∈ c_id <$> courses db) (assignments db);
  ref_user : Forall (λ c, c_user_id c ∈ u_id <$> users db) (courses db);
  ref_semester : Forall (λ c, c_semester_id c ∈ s_id <$> semesters db) (courses db)
}.

(** A slot as the main window fires it: a dialog that adds a course is
    opened for a user and a semester of the store, a dialog that adds an
    assignment for a course of the store. *)
Definition opened_from_store (db : Db) (slot : Slot) : Prop :=
  match slot with
  | SaveCourse userId_ semId_ editCourseId_ _ _ _ =>
      editCourseId_ < 0 →
      userId_ ∈ u_id <$> users db ∧ semId_ ∈ s_id <$> semesters db
  | SaveAssignment courseId_ editAssignmentId_ _ _ _ _ _ =>
      editAssignmentId_ < 0 → courseId_ ∈ c_id <$> courses db
  | _ => True
  end.

(** A confirmed [deleteCourse] whose first statement fails. *)
Definition fails_to_delete_assignments (slot : Slot) (engine : list bool) : Prop :=
  ∃ courseId, slot = DeleteCourse (Some courseId) true ∧ nextOutcome engine = false.

(** ** Sample stores *)

(** A stand-in digest for the sample runs; the theorems hold for every
    digest function. *)
Definition sampleDigest (pw : string) : QByteArray := "sha256:" +:+ pw.

Definition aliceRow : UserRow :=
  mkUserRow 1 "alice" (sampleDigest "correct horse") 1725000000.
Definition fall2024 : SemesterRow := mkSemesterRow 1 "Fall" 2024.
Definition cs101 : CourseRow := mkCourseRow 1 1 1 "CS101" "Intro" "#B91C1C".

(** Two assignments of CS101 due at the same instant, 2024-10-01T10:00:00Z. *)
Definition essay : AssignmentRow :=
  mkAssignmentRow 1 1 "Essay" "Reading response" 1727776800 None None.
Definition quiz : AssignmentRow :=
  mkAssignmentRow 2 1 "Quiz" "Quiz 1" 1727776800 None None.

(** 2024-10-01T10:00:00Z, as the dialog holds it. *)
Definition tenOClock : QDateTime := mkQDateTime 1727776800000 LocalTime.

Definition aliceOnly : Db := mkDb [aliceRow] [] [] [] 1 0 0 0.
Definition aliceFall : Db := mkDb [aliceRow] [fall2024] [] [] 1 1 0 0.
Definition oneCourse : Db := mkDb [aliceRow] [fall2024] [cs101] [] 1 1 1 0.
Definition essayFirst : Db := mkDb [aliceRow] [fall2024] [cs101] [essay; quiz] 1 1 1 2.
Definition oneAssignment : Db := mkDb [aliceRow] [fall2024] [cs101] [essay] 1 1 1 1.

Definition math200 : CourseRow := mkCourseRow 2 1 1 "MATH200" "Calculus" "#4F46E5".
(** An assignment of MATH200, due 2024-09-22T10:00:00Z. *)
Definition problemSet : AssignmentRow :=
  mkAssignmentRow 2 2 "HW" "Problem set 1" 1726999200 (Some "limits") None.
Definition twoCourses : Db :=
  mkDb [aliceRow] [fall2024] [cs101; math200] [essay; problemSet] 1 1 2 2.
(** [twoCourses] without the MATH200 row, its assignment still there. *)
Definition orphaned : Db :=
  mkDb [aliceRow] [fall2024] [cs101] [essay; problemSet] 1 1 2 2.

(** * Proofs *)

(** ** Lists and the connection *)

Lemma exec_query {R} (f : Db → R) (s : Session) :
  exec (λ db, Some (f db, db)) s
  = (if nextOutcome (outcomes s) then Some (f (view s)) else None,
     mkSession (view s) (snapshot s) (tail (outcomes s))).
Proof. unfold exec, nextOutcome. destruct (outcomes s) as [|[] ?]; done. Qed.

Lemma exec_run {R} (stmt : Statement R) (s : Session) :
  exec stmt s
  = if nextOutcome (outcomes s)
    then match stmt (view s) with
         | Some (r, db') => (Some r, mkSession db' (snapshot s) (tail (outcomes s)))
         | None => (None, mkSession (view s) (snapshot s) (tail (outcomes s)))
         end
    else (None, mkSession (view s) (snapshot s) (tail (outcomes s))).
Proof. unfold exec, nextOutcome. destruct (outcomes s) as [|[] ?]; done. Qed.

Lemma filter_nil_not_elem {A B} `{EqDecision B} (f : A → B) (b : B) (l : list A) :
  filter (λ x, f x = b) l = [] ↔ b ∉ f <$> l.
Proof.
  split.
  - intros Hf Hin. apply list_elem_of_fmap in Hin as (x & -> & Hx).
    assert (x ∈ filter (λ y, f y = f x) l) as Hx' by (by apply list_elem_of_filter).
    rewrite Hf in Hx'. by apply elem_of_nil in Hx'.
  - intros Hn. destruct (filter _ l) as [|x l'] eqn:Hf; [done|].
    assert (x ∈ filter (λ y, f y = b) l) as Hx by (rewrite Hf; left).
    apply list_elem_of_filter in Hx as [<- Hx]. destruct Hn. by apply list_elem_of_fmap_2.
Qed.

Lemma NoDup_fmap_elem_inj {A B} (f : A → B) (l : list A) x y :
  NoDup (f <$> l) → x ∈ l → y ∈ l → f x = f y → x = y.
Proof.
  induction l as [|z l IH]; intros Hnd Hx Hy Hf; [by apply elem_of_nil in Hx|].
  cbn in Hnd. apply NoDup_cons in Hnd as [Hz Hnd].
  apply elem_of_cons in Hx as [->|Hx]; apply elem_of_cons in Hy as [->|Hy]; try done.
  - destruct Hz. rewrite Hf. by apply list_elem_of_fmap_2.
  - destruct Hz. rewrite <- Hf. by apply list_elem_of_fmap_2.
  - by apply IH.
Qed.

Lemma filter_key_unique {A B} `{EqDecision B} (f : A → B) (b : B) (l : list A) x rest :
  NoDup (f <$> l) → filter (λ y, f y = b) l = x :: rest → rest = [].
Proof.
  induction l as [|z l IH]; intros Hnd Hf; [done|].
  cbn in Hnd. apply NoDup_cons in Hnd as [Hz Hnd].
  rewrite filter_cons in Hf. destruct (decide (f z = b)) as [Hzb|Hzb].
  - inversion Hf; subst. apply filter_nil_not_elem. done.
  - by apply IH.
Qed.

Lemma StronglySorted_lookup_le {A} (R : relation A) (l : list A) i j a b :
  StronglySorted R l → (i < j)%nat → l !! i = Some a → l !! j = Some b → R a b.
Proof.
  intros Hs. revert i j. induction Hs as [|x l Hs IH Hall]; intros i j Hij Hi Hj; [done|].
  destruct j as [|j]; [lia|]. cbn in Hj.
  destruct i as [|i]; cbn in Hi.
  - inversion Hi; subst. rewrite Forall_forall in Hall. apply Hall.
    by eapply list_elem_of_lookup_2.
  - eapply (IH i j); eauto. lia.
Qed.

Lemma order_insert_Permutation {A} (R : relation A) `{∀ x y, Decision (R x y)}
    (x : A) (l : list A) :
  order_insert R x l ≡ₚ x :: l.
Proof.
  induction l as [|y l IH]; [done|]. cbn. destruct (decide (R x y)); [done|].
  rewrite IH. apply perm_swap.
Qed.

Lemma order_by_Permutation {A} (R : relation A) `{∀ x y, Decision (R x y)}
    (l : list A) :
  order_by R l ≡ₚ l.
Proof.
  induction l as [|x l IH]; [done|]. cbn.
  rewrite order_insert_Permutation. by rewrite IH.
Qed.

Lemma StronglySorted_order_insert {A} (R : relation A) `{∀ x y, Decision (R x y)}
    (x : A) (l : list A) :
  Transitive R → Total R →
  StronglySorted R l → StronglySorted R (order_insert R x l).
Proof.
  intros Htrans Htotal Hs. induction Hs as [|y l Hs IH Hall]; cbn.
  - repeat constructor.
  - destruct (decide (R x y)) as [Hxy|Hxy].
    + constructor; [by constructor|]. constructor; [done|].
      eapply Forall_impl; [exact Hall|]. intros z Hz. by etrans.
    + constructor; [done|]. rewrite order_insert_Permutation.
      constructor; [|done]. by destruct (Htotal x y).
Qed.

Lemma StronglySorted_order_by {A} (R : relation A) `{∀ x y, Decision (R x y)}
    (l : list A) :
  Transitive R → Total R → StronglySorted R (order_by R l).
Proof.
  intros Htrans Htotal. induction l as [|x l IH]; [constructor|].
  cbn. by apply StronglySorted_order_insert.
Qed.

(** ** The heap algorithms keep the queue a heap *)

Section HeapFacts.

Local Open Scope nat_scope.

Context {T : Type}.
Variable comp : T → T → bool.
Variable key : T → Z.
Hypothesis comp_key : ∀ a b, comp a b = true ↔ (key b < key a)%Z.

(** The fuel of the two loops is never what stops them: any fuel that
    covers the distance the hole can travel gives the same result. *)
Lemma push_heap_loop_fuel fuel1 fuel2 (v : list T) hole top value :
  hole ≤ fuel1 → hole ≤ fuel2 →
  push_heap_loop comp fuel1 v hole top value = push_heap_loop comp fuel2 v hole top value.
Proof.
  revert fuel2 v hole.
  induction fuel1 as [|fuel1 IH]; intros fuel2 v hole H1 H2.
  - assert (hole = 0) as -> by lia. destruct fuel2; [done|].
    cbn [push_heap_loop]. destruct (v !! ((0 - 1) / 2)); [|done].
    by rewrite bool_decide_eq_false_2 by lia.
  - destruct fuel2 as [|fuel2].
    + assert (hole = 0) as -> by lia.
      cbn [push_heap_loop]. destruct (v !! ((0 - 1) / 2)); [|done].
      by rewrite bool_decide_eq_false_2 by lia.
    + cbn [push_heap_loop]. destruct (v !! ((hole - 1) / 2)) as [p|]; [|done].
      destruct (bool_decide (top < hole)) eqn:Htop; [|done].
      apply bool_decide_eq_true in Htop. cbn [andb].
      destruct (comp p value); [|done]. apply IH; lia.
Qed.

Lemma adjust_heap_loop_fuel fuel1 fuel2 (v : list T) hole len :
  len ≤ fuel1 + hole → len ≤ fuel2 + hole →
  adjust_heap_loop comp fuel1 v hole len = adjust_heap_loop comp fuel2 v hole len.
Proof.
  revert fuel2 v hole.
  induction fuel1 as [|fuel1 IH]; intros fuel2 v hole H1 H2.
  - destruct fuel2; [done|]. cbn [adjust_heap_loop].
    by rewrite bool_decide_eq_false_2 by lia.
  - destruct fuel2 as [|fuel2]; cbn [adjust_heap_loop].
    + by rewrite bool_decide_eq_false_2 by lia.
    + destruct (bool_decide (hole < (len - 1) / 2)); [|done].
      destruct (v !! (2 * (hole + 1))) as [second|]; [|done].
      destruct (v !! (2 * (hole + 1) - 1)) as [sibling|]; [|done].
      destruct (comp second sibling); apply IH; lia.
Qed.
Lemma parent_lt i : 0 < i → parent i < i.
Proof. unfold parent. lia. Qed.

Lemma parent_le i : parent i ≤ i.
Proof. unfold parent. lia. Qed.

Lemma parent_children i h : 0 < i → parent i = h → i = 2 * h + 1 ∨ i = 2 * h + 2.
Proof. unfold parent. lia. Qed.

Lemma push_heap_loop_length fuel (v : list T) hole top value :
  length (push_heap_loop comp fuel v hole top value) = length v.
Proof.
  revert v hole. induction fuel as [|fuel IH]; intros v hole; cbn [push_heap_loop].
  - destruct (v !! ((hole - 1) / 2)); by rewrite length_insert.
  - destruct (v !! ((hole - 1) / 2)) as [p|]; [|by rewrite length_insert].
    destruct (_ && _); [|by rewrite length_insert].
    by rewrite IH, length_insert.
Qed.

Lemma push_heap_loop_frame fuel (v : list T) hole top value j :
  hole < j → push_heap_loop comp fuel v hole top value !! j = v !! j.
Proof.
  revert v hole. induction fuel as [|fuel IH]; intros v hole Hj; cbn [push_heap_loop].
  - destruct (v !! ((hole - 1) / 2)); by rewrite list_lookup_insert_ne by lia.
  - destruct (v !! ((hole - 1) / 2)) as [p|]; [|by rewrite list_lookup_insert_ne by lia].
    destruct (_ && _); [|by rewrite list_lookup_insert_ne by lia].
    rewrite IH by (pose proof (parent_le hole); unfold parent in *; lia).
    by rewrite list_lookup_insert_ne by lia.
Qed.

Lemma push_heap_loop_perm fuel (v : list T) hole top value :
  hole < length v →
  push_heap_loop comp fuel v hole top value ≡ₚ <[hole := value]> v.
Proof.
  revert v hole. induction fuel as [|fuel IH]; intros v hole Hlen; cbn [push_heap_loop].
  - by destruct (v !! ((hole - 1) / 2)).
  - destruct (v !! ((hole - 1) / 2)) as [p|] eqn:Hp; [|done].
    destruct (bool_decide (top < hole)) eqn:Htop; cbn [andb]; [|done].
    destruct (comp p value); [|done].
    apply bool_decide_eq_true in Htop.
    rewrite IH by (rewrite length_insert; pose proof (parent_le hole); unfold parent in *; lia).
    assert (Hne : (hole - 1) / 2 ≠ hole) by lia.
    rewrite <- (list_insert_insert_eq v hole p value).
    apply Permutation_insert_swap.
    + by apply list_lookup_insert_eq.
    + by rewrite list_lookup_insert_ne by lia.
Qed.

Lemma push_heap_loop_heap fuel len (v : list T) hole value :
  hole ≤ fuel → hole < len → len ≤ length v →
  heap_except key len v hole → below_ok key len v hole value → grands_ok key len v hole →
  heap_upto key len (push_heap_loop comp fuel v hole 0 value).
Proof.
  revert v hole. induction fuel as [|fuel IH]; intros v hole Hf Hl Hlen He Hb Hg.
  - assert (hole = 0) as -> by lia. cbn [push_heap_loop].
    assert (Hres : heap_upto key len (<[0 := value]> v)).
    { intros i x p Hi Hx Hp. look.
      destruct (decide (parent i = 0)) as [Hpi|Hpi].
      - rewrite Hpi in Hp. look. eapply Hb; eauto.
      - look. eapply He; eauto. lia. }
    by destruct (v !! ((0 - 1) / 2)).
  - cbn [push_heap_loop]. fold (parent hole).
    destruct (lookup_lt_is_Some_2 v (parent hole)) as [p Hp];
      [pose proof (parent_le hole); lia|].
    rewrite Hp.
    destruct (bool_decide (0 < hole)) eqn:Htop; cbn [andb].
    + apply bool_decide_eq_true in Htop.
      pose proof (parent_lt hole Htop) as Hlt.
      destruct (comp p value) eqn:Hc.
      * apply comp_key in Hc.
        apply IH; [lia | lia | by rewrite length_insert | | | ].
        -- intros i x q Hi Hne Hx Hq.
           destruct (decide (i = hole)) as [->|Hih].
           ++ look. rewrite Hp in Hq. inversion Hq; subst. lia.
           ++ look. destruct (decide (parent i = hole)) as [Hpi|Hpi].
              ** rewrite Hpi in Hq. look. eapply Hg; eauto.
              ** look. eapply He; eauto.
        -- intros i x Hi Hpi Hx.
           destruct (decide (i = hole)) as [->|Hih].
           ++ look. lia.
           ++ look. assert (key p ≤ key x)%Z; [|lia].
              eapply (He i); eauto. by rewrite Hpi.
        -- intros i x g Hi Hpi Hpos Hx Hgp.
           assert (parent (parent hole) < parent hole) by (by apply parent_lt).
           look.
           assert (key g ≤ key p)%Z.
           { eapply (He (parent hole)); eauto; lia. }
           destruct (decide (i = hole)) as [->|Hih].
           ++ look. done.
           ++ look. assert (key p ≤ key x)%Z; [|lia].
              eapply (He i); eauto. by rewrite Hpi.
      * assert (¬ (key value < key p)%Z) as Hnc.
        { intros Hk. apply comp_key in Hk. congruence. }
        intros i x q Hi Hx Hq.
        destruct (decide (i = hole)) as [->|Hih].
        -- look. rewrite Hp in Hq. inversion Hq; subst. lia.
        -- look. destruct (decide (parent i = hole)) as [Hpi|Hpi].
           ++ rewrite Hpi in Hq. look. eapply Hb; eauto.
           ++ look. eapply He; eauto.
    + apply bool_decide_eq_false in Htop. assert (hole = 0) as -> by lia.
      intros i x q Hi Hx Hq. look.
      destruct (decide (parent i = 0)) as [Hpi|Hpi].
      * rewrite Hpi in Hq. look. eapply Hb; eauto.
      * look. eapply He; eauto. lia.
Qed.


Lemma move_up len (v : list T) hole c m :
  hole < c < len → len ≤ length v → parent c = hole → v !! c = Some m →
  (∀ i x, 0 < i < len → parent i = hole → v !! i = Some x → (key m ≤ key x)%Z) →
  heap_except key len v hole → grands_ok key len v hole →
  heap_except key len (<[hole := m]> v) c ∧ grands_ok key len (<[hole := m]> v) c ∧
  ∀ x, <[c := x]> (<[hole := m]> v) ≡ₚ <[hole := x]> v.
Proof.
  intros Hc Hlen Hpc Hm Hmin He Hg. split; [|split].
  - intros i x p Hi Hne Hx Hp.
    destruct (decide (i = hole)) as [Heq|Hih].
    + subst i. look. pose proof (parent_lt hole ltac:(lia)). look.
      eapply (Hg c); eauto; lia.
    + look. destruct (decide (parent i = hole)) as [Hpi|Hpi].
      * rewrite Hpi in Hp. look. eapply Hmin; eauto.
      * look. eapply He; eauto.
  - intros i x g Hi Hpi Hpos Hx Hgp.
    pose proof (parent_lt i ltac:(lia)).
    rewrite Hpc in Hgp. look.
    eapply (He i); eauto; [lia|]. by rewrite Hpi.
  - intros x.
    rewrite <- (list_insert_insert_eq v hole m x).
    apply Permutation_insert_swap.
    + by apply list_lookup_insert_eq; lia.
    + by rewrite list_lookup_insert_ne by lia.
Qed.

Lemma adjust_heap_loop_spec fuel len (v : list T) hole v' h' :
  adjust_heap_loop comp fuel v hole len = (v', h') →
  len ≤ fuel + hole → hole < len → len ≤ length v →
  heap_except key len v hole → grands_ok key len v hole →
  hole ≤ h' < len ∧ (len - 1) / 2 ≤ h' ∧ length v' = length v ∧
  heap_except key len v' h' ∧ grands_ok key len v' h' ∧
  (∀ j, len ≤ j → v' !! j = v !! j) ∧
  (∀ x, <[h' := x]> v' ≡ₚ <[hole := x]> v).
Proof.
  revert v hole. induction fuel as [|fuel IH]; intros v hole Hrun Hf Hl Hlen He Hg;
    [lia|].
  cbn [adjust_heap_loop] in Hrun.
  destruct (bool_decide (hole < (len - 1) / 2)) eqn:Hlt.
  - apply bool_decide_eq_true in Hlt.
    destruct (lookup_lt_is_Some_2 v (2 * (hole + 1))) as [second Hs]; [lia|].
    destruct (lookup_lt_is_Some_2 v (2 * (hole + 1) - 1)) as [sibling Hb]; [lia|].
    rewrite Hs, Hb in Hrun.
    assert (Hkids : ∀ i, 0 < i → parent i = hole →
               i = 2 * (hole + 1) - 1 ∨ i = 2 * (hole + 1)).
    { intros i Hi Hp. destruct (parent_children i hole Hi Hp); lia. }
    destruct (comp second sibling) eqn:Hc.
    + apply comp_key in Hc.
      destruct (move_up len v hole (2 * (hole + 1) - 1) sibling)
        as (He1 & Hg1 & Hp1); try done; [lia | unfold parent; lia | |].
      { intros i x Hi Hpi Hx. destruct (Hkids i ltac:(lia) Hpi) as [->| ->].
        - rewrite Hb in Hx. inversion Hx; subst. lia.
        - rewrite Hs in Hx. inversion Hx; subst. lia. }
      destruct (IH _ _ Hrun) as (Hh & Hhalf & Hlen' & He' & Hg' & Hfr & Hpm);
        try done; [lia | lia | by rewrite length_insert |].
      rewrite length_insert in Hlen'.
      repeat split; try done; try lia.
      * intros j Hj. rewrite Hfr by done. by rewrite list_lookup_insert_ne by lia.
      * intros x. by rewrite Hpm, Hp1.
    + assert (¬ (key sibling < key second)%Z) as Hnc.
      { intros Hk. apply comp_key in Hk. congruence. }
      destruct (move_up len v hole (2 * (hole + 1)) second)
        as (He1 & Hg1 & Hp1); try done; [lia | unfold parent; lia | |].
      { intros i x Hi Hpi Hx. destruct (Hkids i ltac:(lia) Hpi) as [->| ->].
        - rewrite Hb in Hx. inversion Hx; subst. lia.
        - rewrite Hs in Hx. inversion Hx; subst. lia. }
      destruct (IH _ _ Hrun) as (Hh & Hhalf & Hlen' & He' & Hg' & Hfr & Hpm);
        try done; [lia | lia | by rewrite length_insert |].
      rewrite length_insert in Hlen'.
      repeat split; try done; try lia.
      * intros j Hj. rewrite Hfr by done. by rewrite list_lookup_insert_ne by lia.
      * intros x. by rewrite Hpm, Hp1.
  - apply bool_decide_eq_false in Hlt. inversion Hrun; subst.
    repeat split; try done; lia.
Qed.

Lemma std_adjust_heap_spec len (v : list T) value :
  0 < len → len ≤ length v → heap_except key len v 0 →
  heap_upto key len (std_adjust_heap comp v 0 len value) ∧
  length (std_adjust_heap comp v 0 len value) = length v ∧
  (∀ j, len ≤ j → std_adjust_heap comp v 0 len value !! j = v !! j) ∧
  std_adjust_heap comp v 0 len value ≡ₚ <[0 := value]> v.
Proof.
  intros Hpos Hlen He. unfold std_adjust_heap.
  destruct (adjust_heap_loop comp len v 0 len) as [v1 h1] eqn:Hrun.
  destruct (adjust_heap_loop_spec _ _ _ _ _ _ Hrun)
    as (Hh & Hhalf & Hlen1 & He1 & Hg1 & Hfr & Hpm); try done; [lia | | ].
  { intros i x g _ _ Hh. lia. }
  assert (Hgoal : ∀ v2 h2,
    h2 < len → length v2 = length v → heap_except key len v2 h2 →
    (∀ i, 0 < i < len → parent i ≠ h2) →
    (∀ j, len ≤ j → v2 !! j = v !! j) →
    <[h2 := value]> v2 ≡ₚ <[0 := value]> v →
    heap_upto key len (std_push_heap_at comp v2 h2 0 value) ∧
    length (std_push_heap_at comp v2 h2 0 value) = length v ∧
    (∀ j, len ≤ j → std_push_heap_at comp v2 h2 0 value !! j = v !! j) ∧
    std_push_heap_at comp v2 h2 0 value ≡ₚ <[0 := value]> v).
  { intros v2 h2 Hh2 Hl2 He2 Hleaf Hfr2 Hpm2. unfold std_push_heap_at.
    split; [|split; [|split]].
    - apply push_heap_loop_heap; try done; try lia.
      + intros i x Hi Hpi. by destruct (Hleaf i Hi).
      + intros i x g Hi Hpi. by destruct (Hleaf i Hi).
    - by rewrite push_heap_loop_length.
    - intros j Hj. rewrite push_heap_loop_frame by lia. by apply Hfr2.
    - rewrite push_heap_loop_perm by lia. done. }
  destruct (bool_decide (len `mod` 2 = 0)) eqn:Heven; cbn [andb].
  - apply bool_decide_eq_true in Heven.
    destruct (bool_decide (h1 = (len - 2) / 2)) eqn:Honly.
    + apply bool_decide_eq_true in Honly.
      destruct (lookup_lt_is_Some_2 v1 (2 * (h1 + 1) - 1)) as [only Ho]; [lia|].
      rewrite Ho.
      destruct (move_up len v1 h1 (2 * (h1 + 1) - 1) only)
        as (He2 & Hg2 & Hp2); try done; [lia | lia | unfold parent; lia | |].
      { intros i x Hi Hpi Hx.
        destruct (parent_children i h1 ltac:(lia) Hpi) as [->| ->]; [|lia].
        replace (2 * h1 + 1) with (2 * (h1 + 1) - 1) in Hx by lia.
        rewrite Ho in Hx. by inversion Hx. }
      apply Hgoal; try done; [lia | by rewrite length_insert | | |].
      * intros i Hi. unfold parent. lia.
      * intros j Hj. rewrite list_lookup_insert_ne by lia. by apply Hfr.
      * by rewrite Hp2, Hpm.
    + apply bool_decide_eq_false in Honly.
      apply Hgoal; try done; [lia | ].
      intros i Hi. unfold parent. lia.
  - apply bool_decide_eq_false in Heven.
    apply Hgoal; try done; [lia | ].
    intros i Hi. unfold parent. lia.
Qed.


Lemma heap_upto_take len (v : list T) :
  heap_upto key len v → is_heap key (take len v).
Proof.
  intros Hh i x p Hi Hx Hp. rewrite length_take in Hi.
  pose proof (parent_le i).
  rewrite lookup_take_lt in Hx, Hp by lia.
  eapply Hh; eauto. lia.
Qed.

Lemma pq_push_perm x (c : list T) : pq_push comp x c ≡ₚ x :: c.
Proof.
  unfold pq_push, std_push_heap, std_push_heap_at.
  rewrite last_snoc, length_app. cbn [length].
  rewrite push_heap_loop_perm by (rewrite length_app; cbn [length]; lia).
  replace (length c + 1 - 1) with (length c + 0) by lia.
  rewrite insert_app_r. cbn. symmetry. apply Permutation_cons_append.
Qed.

Lemma pq_push_heap x (c : list T) : is_heap key c → is_heap key (pq_push comp x c).
Proof.
  intros Hc. unfold is_heap, pq_push, std_push_heap, std_push_heap_at.
  rewrite last_snoc, push_heap_loop_length, length_app. cbn [length].
  replace (length c + 1 - 1) with (length c) by lia.
  apply push_heap_loop_heap; try done; try lia.
  - rewrite length_app. cbn [length]. lia.
  - intros i y p Hi Hne Hy Hp. pose proof (parent_le i).
    rewrite lookup_app_l in Hy, Hp by lia. eapply Hc; eauto. lia.
  - intros i y Hi Hpi. unfold parent in Hpi. lia.
  - intros i y g Hi Hpi. unfold parent in Hpi. lia.
Qed.

Lemma pq_pop_spec a (c : list T) :
  is_heap key (a :: c) →
  is_heap key (pq_pop comp (a :: c)) ∧ pq_pop comp (a :: c) ≡ₚ c.
Proof.
  intros Hh. unfold pq_pop, std_pop_heap, pop_back.
  destruct (bool_decide (1 < length (a :: c))) eqn:Hn.
  - apply bool_decide_eq_true in Hn. cbn [length] in Hn.
    destruct (lookup_lt_is_Some_2 (a :: c) (length c)) as [value Hv];
      [cbn [length]; lia|].
    assert (Hlast : last (a :: c) = Some value).
    { rewrite last_lookup. cbn [length Nat.pred]. done. }
    rewrite Hlast. cbn [head length].
    replace (S (length c) - 1) with (length c) by lia.
    remember (<[length c := a]> (a :: c)) as va eqn:Hva.
    assert (Hval : length va = S (length c)).
    { subst va. by rewrite length_insert. }
    destruct (std_adjust_heap_spec (length c) va value)
      as (Hheap & Hlen & Hfr & Hpm); [lia | lia | |].
    { intros i x p Hi Hne Hx Hp. pose proof (parent_le i). subst va.
      rewrite list_lookup_insert_ne in Hx, Hp by lia.
      eapply (Hh i); eauto. cbn [length]. lia. }
    remember (std_adjust_heap comp va 0 (length c) value) as r eqn:Hr.
    rewrite Hlen, Hval. replace (S (length c) - 1) with (length c) by lia.
    split; [by apply heap_upto_take|].
    assert (Hra : r !! length c = Some a).
    { rewrite Hfr by lia. subst va. apply list_lookup_insert_eq.
      cbn [length]. lia. }
    assert (Hsplit : r = take (length c) r ++ [a]).
    { rewrite <- (take_drop_middle r (length c) a Hra) at 1.
      rewrite drop_ge by lia. done. }
    apply (Permutation_cons_inv (a := a)).
    rewrite Permutation_cons_append, <- Hsplit, Hpm. subst va.
    by apply Permutation_insert_swap.
  - apply bool_decide_eq_false in Hn. cbn [length] in Hn.
    destruct c; [|cbn [length] in Hn; lia].
    cbn. split; [|done]. intros i x p Hi. cbn in Hi. lia.
Qed.

Lemma heap_root_min (v : list T) r :
  is_heap key v → v !! 0 = Some r → ∀ i x, v !! i = Some x → (key r ≤ key x)%Z.
Proof.
  intros Hh Hr i. induction i as [i IH] using lt_wf_ind. intros x Hx.
  destruct (decide (i = 0)) as [->|Hi].
  - rewrite Hr in Hx. inversion Hx. lia.
  - pose proof (parent_lt i ltac:(lia)) as Hlt.
    pose proof (lookup_lt_Some _ _ _ Hx) as Hil.
    destruct (lookup_lt_is_Some_2 v (parent i)) as [p Hp]; [lia|].
    assert (key r ≤ key p)%Z by (eapply IH; eauto).
    assert (key p ≤ key x)%Z by (eapply (Hh i); eauto; lia).
    lia.
Qed.

Lemma heap_top_min a (c : list T) x :
  is_heap key (a :: c) → x ∈ c → (key a ≤ key x)%Z.
Proof.
  intros Hh Hx. apply list_elem_of_lookup in Hx as [i Hi].
  by apply (heap_root_min (a :: c) a Hh eq_refl (S i) x).
Qed.

Lemma is_heap_nil : is_heap key (@nil T).
Proof. intros i x p Hi. cbn in Hi. lia. Qed.

End HeapFacts.

(** ** The Upcoming queue pops in ascending order *)

Lemma DueSooner_key a b : DueSooner a b = true ↔ dueKey b < dueKey a.
Proof. unfold DueSooner, QDateTime_gt, dueKey. apply bool_decide_eq_true. Qed.

Lemma pushAll_from_heap rows acc :
  is_heap dueKey acc →
  is_heap dueKey (foldl (λ pq r, pq_push DueSooner (fetchAssignment r) pq) acc rows) ∧
  foldl (λ pq r, pq_push DueSooner (fetchAssignment r) pq) acc rows
    ≡ₚ (fetchAssignment <$> rows) ++ acc.
Proof.
  revert acc. induction rows as [|r rows IH]; intros acc Hacc; [done|].
  cbn [foldl fmap list_fmap].
  destruct (IH (pq_push DueSooner (fetchAssignment r) acc)) as [Hh Hp].
  { by apply (pq_push_heap DueSooner dueKey DueSooner_key). }
  split; [done|].
  rewrite Hp, pq_push_perm. symmetry. apply Permutation_middle.
Qed.

Lemma pushAll_heap rows : is_heap dueKey (pushAll rows).
Proof. apply pushAll_from_heap, is_heap_nil. Qed.

Lemma pushAll_perm rows : pushAll rows ≡ₚ fetchAssignment <$> rows.
Proof.
  unfold pushAll. destruct (pushAll_from_heap rows []) as [_ Hp].
  { apply is_heap_nil. }
  by rewrite Hp, app_nil_r.
Qed.

Lemma popLoop_length k pq : (length (popLoop k pq) ≤ k)%nat.
Proof.
  revert pq. induction k as [|k IH]; intros pq; [cbn; lia|].
  destruct pq as [|a c]; cbn [popLoop pq_top head length]; [lia|].
  specialize (IH (pq_pop DueSooner (a :: c))). lia.
Qed.

Lemma popLoop_submseteq k pq : is_heap dueKey pq → popLoop k pq ⊆+ pq.
Proof.
  revert pq. induction k as [|k IH]; intros pq Hh; [apply submseteq_nil_l|].
  destruct pq as [|a c]; cbn [popLoop pq_top head]; [done|].
  destruct (pq_pop_spec DueSooner dueKey DueSooner_key a c Hh) as [Hh' Hp].
  apply submseteq_skip.
  transitivity (pq_pop DueSooner (a :: c)); [by apply IH|].
  by apply Permutation_submseteq.
Qed.

Lemma popLoop_sorted k pq :
  is_heap dueKey pq → StronglySorted due_le_assignment (popLoop k pq).
Proof.
  revert pq. induction k as [|k IH]; intros pq Hh; [constructor|].
  destruct pq as [|a c]; cbn [popLoop pq_top head]; [constructor|].
  destruct (pq_pop_spec DueSooner dueKey DueSooner_key a c Hh) as [Hh' Hp].
  constructor; [by apply IH|].
  apply Forall_forall. intros x Hx.
  apply (heap_top_min dueKey a c x Hh).
  eapply elem_of_Permutation_proper; [symmetry; exact Hp|].
  eapply elem_of_submseteq; [exact Hx|]. by apply popLoop_submseteq.
Qed.

Lemma popLoop_all k pq :
  is_heap dueKey pq → (length pq ≤ k)%nat → popLoop k pq ≡ₚ pq.
Proof.
  revert pq. induction k as [|k IH]; intros pq Hh Hk.
  - destruct pq; [done|cbn in Hk; lia].
  - destruct pq as [|a c]; cbn [popLoop pq_top head]; [done|].
    destruct (pq_pop_spec DueSooner dueKey DueSooner_key a c Hh) as [Hh' Hp].
    rewrite IH; [by rewrite Hp | done |].
    rewrite Hp. cbn in Hk. lia.
Qed.

Lemma popLoop_take k m pq : (k ≤ m)%nat → popLoop k pq = take k (popLoop m pq).
Proof.
  revert m pq. induction k as [|k IH]; intros m pq Hk; [done|].
  destruct m as [|m]; [lia|].
  destruct pq as [|a c]; cbn [popLoop pq_top head take]; [done|].
  f_equal. apply IH. lia.
Qed.

Lemma showLoop_pops k pq s :
  shown_assignment <$> (showLoop k pq s).1 = popLoop k pq.
Proof.
  revert pq s. induction k as [|k IH]; intros pq s; [done|].
  destruct pq as [|a c]; cbn [showLoop popLoop pq_empty pq_top head]; [done|].
  unfold bind, ret.
  destruct (exec (select_course_code (courseId a)) s) as [qc s1].
  specialize (IH (pq_pop DueSooner (a :: c)) s1).
  destruct (showLoop k (pq_pop DueSooner (a :: c)) s1) as [rest s2].
  cbn in *. by rewrite IH.
Qed.

Lemma reloadUpcoming_pops userId_ semesterId_ s :
  ∃ rows, shown_assignment <$> (reloadUpcoming userId_ semesterId_ s).1
          = popLoop 10 (pushAll rows).
Proof.
  unfold reloadUpcoming. destruct (bool_decide (semesterId_ < 0)).
  - exists []. done.
  - unfold bind. destruct (exec (select_upcoming semesterId_ userId_) s) as [q s1].
    exists (default [] q). apply showLoop_pops.
Qed.

(** C1: the Upcoming list never holds more than ten entries, and its
    entries are in ascending order of their due instant: for positions
    [i < j], the entry at [i] is due no later than the entry at [j]. *)
Theorem reloadUpcoming_at_most_ten_ascending (userId_ semesterId_ : Z) (s : Session) :
  let upcoming_ := (reloadUpcoming userId_ semesterId_ s).1 in
  (length upcoming_ ≤ 10)%nat ∧
  ∀ i j a b, (i < j)%nat → upcoming_ !! i = Some a → upcoming_ !! j = Some b →
    msecsSinceEpoch (dueAtUtc (shown_assignment a))
    ≤ msecsSinceEpoch (dueAtUtc (shown_assignment b)).
Proof.
  cbv zeta. destruct (reloadUpcoming_pops userId_ semesterId_ s) as [rows Hrows].
  split.
  - rewrite <- (length_fmap shown_assignment), Hrows. apply popLoop_length.
  - intros i j a b Hij Ha Hb.
    apply (StronglySorted_lookup_le due_le_assignment (popLoop 10 (pushAll rows)) i j
             (shown_assignment a) (shown_assignment b)); [|done| |].
    + apply popLoop_sorted, pushAll_heap.
    + by rewrite <- Hrows, list_lookup_fmap, Ha.
    + by rewrite <- Hrows, list_lookup_fmap, Hb.
Qed.

(** ** The ranking and the order of its input *)

Lemma showLoop_labels k pq s :
  (showLoop k pq s).1 = labelAll (courses (view s)) (outcomes s) (popLoop k pq).
Proof.
  revert pq s. induction k as [|k IH]; intros pq s; [done|].
  destruct pq as [|a c]; cbn [showLoop popLoop pq_empty pq_top head labelAll]; [done|].
  unfold bind, ret, select_course_code. rewrite exec_query.
  specialize (IH (pq_pop DueSooner (a :: c))
                 (mkSession (view s) (snapshot s) (tail (outcomes s)))).
  destruct (showLoop k (pq_pop DueSooner (a :: c)) _) as [rest s2].
  cbn in IH. cbn [fst]. rewrite IH. f_equal. f_equal.
  by destruct (nextOutcome (outcomes s)).
Qed.

Lemma labelAll_assignments cs engine popped :
  shown_assignment <$> labelAll cs engine popped = popped.
Proof.
  revert engine. induction popped as [|a rest IH]; intros engine; [done|].
  cbn. by rewrite IH.
Qed.





Lemma fetchAssignment_content r :
  assignmentContent (fetchAssignment r) = fetchAssignment (rowContent r).
Proof. reflexivity. Qed.

Lemma dueKey_content a : dueKey (assignmentContent a) = dueKey a.
Proof. reflexivity. Qed.







Lemma reloadUpcoming_labels userId_ semesterId_ s :
  (reloadUpcoming userId_ semesterId_ s).1
  = if bool_decide (semesterId_ < 0) then []
    else labelAll (courses (view s)) (tail (outcomes s))
           (popLoop 10 (pushAll
              (if nextOutcome (outcomes s)
               then order_by due_le (upcoming_join semesterId_ userId_ (view s))
               else []))).
Proof.
  unfold reloadUpcoming. destruct (bool_decide (semesterId_ < 0)); [done|].
  unfold bind, select_upcoming. rewrite exec_query, showLoop_labels. cbn.
  by destruct (nextOutcome (outcomes s)).
Qed.






Lemma dueKey_fetch r : dueKey (fetchAssignment r) = dueMSecs r.
Proof. reflexivity. Qed.

(** X1: when the query is carried out, the Upcoming list shows the due
    instants of the scope in ascending order, cut after the tenth: its
    entries are the ten soonest assignments of the scope, or all of them
    when there are fewer. *)
Theorem reloadUpcoming_shows_the_soonest (userId_ semesterId_ : Z) (db : Db)
    (engine : list bool) :
  0 ≤ semesterId_ →
  (dueKey ∘ shown_assignment)
    <$> (reloadUpcoming userId_ semesterId_ (idle db (true :: engine))).1
  = take 10 (merge_sort Z.le (dueMSecs <$> upcoming_join semesterId_ userId_ db)).
Proof.
  intros Hsem. rewrite reloadUpcoming_labels.
  rewrite bool_decide_eq_false_2 by lia. cbn [idle view outcomes nextOutcome hd tail courses].
  rewrite list_fmap_compose, labelAll_assignments.
  set (rows := order_by due_le (upcoming_join semesterId_ userId_ db)).
  rewrite (popLoop_take 10 (Nat.max 10 (length rows)) (pushAll rows)) by lia.
  rewrite fmap_take. f_equal.
  apply (StronglySorted_unique Z.le).
  - eapply StronglySorted_fmap; [|apply popLoop_sorted, pushAll_heap]. done.
  - apply StronglySorted_merge_sort; apply _.
  - rewrite popLoop_all; [|apply pushAll_heap|].
    + rewrite pushAll_perm, merge_sort_Permutation. unfold rows.
      rewrite order_by_Permutation, <- list_fmap_compose. done.
    + rewrite pushAll_perm, length_fmap. lia.
Qed.

(** The problem set, due on 22 September, is shown before the essay, due
    on 1 October. *)
Lemma reloadUpcoming_shows_the_soonest_witness :
  (dueKey ∘ shown_assignment) <$> (reloadUpcoming 1 1 (idle twoCourses [true])).1
  = [1726999200000; 1727776800000].
Proof.
  rewrite (reloadUpcoming_shows_the_soonest 1 1 twoCourses []) by lia.
  reflexivity.
Defined.

(** ** Login and registration *)

(** C3, as the code has it: a login with a nonexistent username and a
    login with an existing username and a password whose digest differs
    from the stored one both end in a warning box titled "Login failed",
    without accepting the dialog and without changing the store; the text
    of the box tells the two apart: "Incorrect password." when the user
    row was found, "User not found." when it was not (or the lookup
    failed). *)
Theorem onLogin_failure_message (Sha256 : string → QByteArray) (db : Db)
    (engine : list bool) (user_ pass_ : string) :
  (∀ u, u ∈ users db → u_username u = user_ →
        u_password_hash u ≠ hashPassword Sha256 pass_) →
  onLogin Sha256 user_ pass_ (idle db engine)
  = (Shown (warning "Login failed"
              (if bool_decide (user_ ∈ u_username <$> users db) && nextOutcome engine
               then "Incorrect password." else "User not found.")),
     idle db (tail engine)).
Proof.
  intros Hwrong. unfold onLogin, bind, ret, select_user. rewrite exec_query. cbn.
  destruct (nextOutcome engine); [|by rewrite andb_false_r].
  rewrite andb_true_r.
  destruct (filter (λ u, u_username u = user_) (users db)) as [|u rest] eqn:Hf.
  - apply filter_nil_not_elem in Hf. by rewrite bool_decide_eq_false_2.
  - assert (u ∈ filter (λ u, u_username u = user_) (users db)) as Hu
      by (rewrite Hf; left).
    apply list_elem_of_filter in Hu as [Hname Hu].
    cbn. rewrite (bool_decide_eq_true_2 (u_password_hash u ≠ _)) by (by apply Hwrong).
    rewrite bool_decide_eq_true_2; [done|].
    rewrite <- Hname. by apply list_elem_of_fmap_2.
Qed.

(** Alice's password is "correct horse"; another one is refused. *)
Lemma onLogin_failure_message_witness :
  onLogin sampleDigest "alice" "battery staple" (idle aliceOnly [])
  = (Shown (warning "Login failed" "Incorrect password."), idle aliceOnly []).
Proof.
  apply (onLogin_failure_message sampleDigest aliceOnly [] "alice" "battery staple").
  intros u Hu _. apply list_elem_of_singleton in Hu. subst u. discriminate.
Defined.

(** Counterexample to C3 as stated: the box shown for a wrong password and the box
    shown for an unknown user have different texts. *)
Lemma onLogin_tells_the_causes_apart :
  (onLogin sampleDigest "alice" "battery staple" (idle aliceOnly [])).1
    = Shown (warning "Login failed" "Incorrect password.") ∧
  (onLogin sampleDigest "bob" "battery staple" (idle aliceOnly [])).1
    = Shown (warning "Login failed" "User not found.") ∧
  (onLogin sampleDigest "alice" "battery staple" (idle aliceOnly [])).1
    ≠ (onLogin sampleDigest "bob" "battery staple" (idle aliceOnly [])).1.
Proof. split; [done|]. split; [done|]. vm_compute. discriminate. Qed.

(** C5: registering a username the [users] table already holds fails with
    the "Register failed" warning and leaves the store as it was, after a
    single statement: the [INSERT] that the table's [UNIQUE] constraint
    rejects. A registration of a fresh username that the engine carries
    out appends the row, so registering the same username twice fails the
    second time and the first registration's row stays as it is. *)
Theorem onRegister_duplicate_username (Sha256 : string → QByteArray) (db : Db)
    (engine : list bool) (user_ pass_ : string) (now : Z) :
  (user_ ∈ u_username <$> users db →
   onRegister Sha256 user_ pass_ now (idle db engine)
   = (warning "Register failed" "Username exists?", idle db (tail engine))) ∧
  (user_ ∉ u_username <$> users db → nextOutcome engine = true →
   ∃ db',
     onRegister Sha256 user_ pass_ now (idle db engine)
     = (information "Registered" "User created. Please login.", idle db' (tail engine)) ∧
     users db' = users db ++ [mkUserRow (next_rowid (u_id <$> users db) (seq_users db))
                                        user_ (hashPassword Sha256 pass_) now] ∧
     user_ ∈ u_username <$> users db').
Proof.
  split.
  - intros Hdup. unfold onRegister, bind, ret, transaction, rollback.
    cbn. rewrite exec_run. cbn. unfold insert_user.
    rewrite bool_decide_eq_true_2 by done. by destruct (nextOutcome engine).
  - intros Hfresh Hok. eexists.
    unfold onRegister, bind, ret, transaction, commit.
    cbn. rewrite exec_run. cbn. unfold insert_user.
    rewrite bool_decide_eq_false_2 by done. rewrite Hok. cbn.
    split; [reflexivity|]. cbn [users]. split; [done|].
    rewrite fmap_app. apply elem_of_app. right. cbn. left.
Qed.

(** Registering "alice" twice on a fresh store: the second registration
    fails and Alice's row is as the first one wrote it. *)
Lemma onRegister_duplicate_username_witness :
  onRegister sampleDigest "alice" "correct horse" 1725000000 (idle emptyDb [])
  = (information "Registered" "User created. Please login.", idle aliceOnly []) ∧
  onRegister sampleDigest "alice" "battery staple" 1725000600 (idle aliceOnly [])
  = (warning "Register failed" "Username exists?", idle aliceOnly []).
Proof.
  split; [reflexivity|].
  apply (onRegister_duplicate_username sampleDigest aliceOnly [] "alice" "battery staple" 1725000600).
  cbn. left.
Defined.

(** ** Saving a course *)

Lemma withCourses_same db : withCourses db (courses db) = db.
Proof. by destruct db. Qed.

Lemma updatedCourse_absent code name color courseId (cs : list CourseRow) :
  courseId ∉ c_id <$> cs → updatedCourse code name color courseId <$> cs = cs.
Proof.
  induction cs as [|c cs IH]; intros Hno; [done|].
  cbn in *. apply not_elem_of_cons in Hno as [Hc Hno].
  rewrite IH by done. unfold updatedCourse at 1.
  by rewrite bool_decide_eq_false_2 by done.
Qed.

Lemma CourseDialog_onSave_edit_run userId_ semId_ editCourseId_ code_ name_ color_ db engine :
  0 ≤ editCourseId_ →
  CourseDialog_onSave userId_ semId_ editCourseId_ code_ name_ color_ (idle db engine)
  = if nextOutcome engine
    then (Accepted editCourseId_,
          idle (withCourses db
                  (updatedCourse code_ name_
                     (if bool_decide (color_ = "") then defaultColor else color_)
                     editCourseId_ <$> courses db))
               (tail engine))
    else (Shown (warning "Error" "Could not update course."), idle db (tail engine)).
Proof.
  intros Hid. unfold CourseDialog_onSave, bind, ret, transaction, commit, rollback.
  cbn. rewrite bool_decide_eq_false_2 by lia. rewrite exec_run. cbn.
  by destruct (nextOutcome engine).
Qed.

Lemma CourseDialog_onSave_add_run userId_ semId_ editCourseId_ code_ name_ color_ db engine :
  editCourseId_ < 0 →
  CourseDialog_onSave userId_ semId_ editCourseId_ code_ name_ color_ (idle db engine)
  = if nextOutcome engine
    then (Accepted (next_rowid (c_id <$> courses db) (seq_courses db)),
          idle (mkDb (users db) (semesters db)
                  (courses db ++
                     [mkCourseRow (next_rowid (c_id <$> courses db) (seq_courses db))
                        userId_ semId_ code_ name_
                        (if bool_decide (color_ = "") then defaultColor else color_)])
                  (assignments db)
                  (seq_users db) (seq_semesters db)
                  (next_rowid (c_id <$> courses db) (seq_courses db))
                  (seq_assignments db))
               (tail engine))
    else (Shown (warning "Error" "Could not save course."), idle db (tail engine)).
Proof.
  intros Hid. unfold CourseDialog_onSave, bind, ret, transaction, commit, rollback.
  cbn. rewrite bool_decide_eq_true_2 by lia. rewrite exec_run. cbn.
  by destruct (nextOutcome engine).
Qed.

(** C8, as the code has it: saving an edit is accepted whenever the engine
    carries out the [UPDATE], also for a course id that no row carries: no
    failure is reported then, and the store is left as it was. In every
    row that does carry the id, [code], [name] and [color_hex] are
    replaced by the dialog's fields (the color by the default when the
    field is empty); the other rows and tables stay as they are. *)
Theorem CourseDialog_onSave_edit (userId_ semId_ editCourseId_ : Z)
    (code_ name_ color_ : string) (db : Db) (engine : list bool) :
  0 ≤ editCourseId_ → nextOutcome engine = true →
  ∃ db',
    CourseDialog_onSave userId_ semId_ editCourseId_ code_ name_ color_ (idle db engine)
    = (Accepted editCourseId_, idle db' (tail engine)) ∧
    (editCourseId_ ∉ c_id <$> courses db → db' = db) ∧
    length (courses db') = length (courses db) ∧
    (∀ i c, courses db !! i = Some c →
       courses db' !! i
       = Some (if bool_decide (c_id c = editCourseId_)
               then mkCourseRow (c_id c) (c_user_id c) (c_semester_id c) code_ name_
                      (if bool_decide (color_ = "") then defaultColor else color_)
               else c)) ∧
    users db' = users db ∧ semesters db' = semesters db ∧
    assignments db' = assignments db.
Proof.
  intros Hid Hok. eexists. split.
  - rewrite CourseDialog_onSave_edit_run by done. rewrite Hok. reflexivity.
  - split; [|split; [|split; [|done]]].
    + intros Hno. rewrite updatedCourse_absent by done. apply withCourses_same.
    + cbn. by rewrite length_fmap.
    + intros i c Hc. cbn. by rewrite list_lookup_fmap, Hc.
Qed.

(** Editing CS101 into CS102 rewrites the row of course 1. *)
Lemma CourseDialog_onSave_edit_witness :
  ∃ db',
    CourseDialog_onSave 1 1 1 "CS102" "Data Structures" "#0F766E" (idle oneCourse [])
    = (Accepted 1, idle db' []) ∧
    courses db' !! 0%nat = Some (mkCourseRow 1 1 1 "CS102" "Data Structures" "#0F766E").
Proof.
  destruct (CourseDialog_onSave_edit 1 1 1 "CS102" "Data Structures" "#0F766E" oneCourse [])
    as (db' & Hrun & _ & _ & Hrows & _); [lia | reflexivity |].
  exists db'. split; [exact Hrun|]. exact (Hrows 0%nat cs101 eq_refl).
Defined.

(** Counterexample to C8 as stated: no course has id 7, and saving an edit of course 7
    is accepted, with the store unchanged. *)
Lemma CourseDialog_onSave_unknown_course_accepted :
  (7 ∉ c_id <$> courses oneCourse) ∧
  CourseDialog_onSave 1 1 7 "MATH200" "Calculus" "" (idle oneCourse [])
  = (Accepted 7, idle oneCourse []).
Proof.
  split; [|reflexivity]. cbn. intros Hin.
  apply list_elem_of_singleton in Hin. discriminate.
Qed.

(** C10: an edit saved with the color field empty stores the default color
    "#4F46E5" in every row that carries the course id, whatever color the
    row held before; it is the color a course created with an empty field
    gets. *)
Theorem CourseDialog_onSave_empty_color (userId_ semId_ editCourseId_ : Z)
    (code_ name_ : string) (db : Db) (engine : list bool) :
  0 ≤ editCourseId_ → nextOutcome engine = true →
  let after :=
    view (CourseDialog_onSave userId_ semId_ editCourseId_ code_ name_ "" (idle db engine)).2 in
  let created :=
    view (CourseDialog_onSave userId_ semId_ (-1) code_ name_ "" (idle db engine)).2 in
  defaultColor = "#4F46E5" ∧
  length (courses after) = length (courses db) ∧
  (∀ i c, courses db !! i = Some c → c_id c = editCourseId_ →
     courses after !! i
     = Some (mkCourseRow editCourseId_ (c_user_id c) (c_semester_id c)
                         code_ name_ "#4F46E5")) ∧
  (∀ c, c ∈ courses after → c_id c = editCourseId_ → c_color_hex c = "#4F46E5") ∧
  last (courses created) = Some
    (mkCourseRow (next_rowid (c_id <$> courses db) (seq_courses db))
                 userId_ semId_ code_ name_ "#4F46E5").
Proof.
  intros Hid Hok. cbv zeta.
  rewrite CourseDialog_onSave_edit_run by done. rewrite Hok. cbn [snd view idle withCourses courses].
  split; [done|]. split; [by rewrite length_fmap|]. split; [|split].
  - intros i c Hc Hcid. rewrite list_lookup_fmap, Hc. cbn. unfold updatedCourse.
    rewrite bool_decide_eq_true_2 by done. by rewrite Hcid.
  - intros c Hc Hcid. apply list_elem_of_fmap in Hc as (c0 & -> & Hc0).
    unfold updatedCourse in *. destruct (bool_decide (c_id c0 = editCourseId_)) eqn:Hb; [done|].
    apply bool_decide_eq_false in Hb. done.
  - rewrite CourseDialog_onSave_add_run by lia. rewrite Hok.
    cbn [snd view idle courses]. by rewrite last_snoc.
Qed.

(** CS101 was stored with the color "#B91C1C"; saving the edit with the
    color field empty leaves it with "#4F46E5". *)
Lemma CourseDialog_onSave_empty_color_witness :
  courses (view (CourseDialog_onSave 1 1 1 "CS101" "Intro" "" (idle oneCourse [])).2)
  = [mkCourseRow 1 1 1 "CS101" "Intro" "#4F46E5"] ∧
  c_color_hex cs101 = "#B91C1C".
Proof.
  destruct (CourseDialog_onSave_empty_color 1 1 1 "CS101" "Intro" oneCourse [])
    as (_ & Hlen & Hrows & _); [lia | reflexivity |].
  specialize (Hrows 0%nat cs101 eq_refl eq_refl).
  split; [|reflexivity].
  destruct (courses (view (CourseDialog_onSave 1 1 1 "CS101" "Intro" "" (idle oneCourse [])).2))
    as [|c [|c' rest]]; cbn in Hlen, Hrows; try discriminate.
  by inversion Hrows.
Defined.

(** ** Deleting a course *)

Lemma deleteCourse_run courseId db engine :
  deleteCourse (Some courseId) true (idle db engine)
  = (None,
     idle (afterDeleteCourse courseId (nextOutcome engine) (nextOutcome (tail engine)) db)
          (tail (tail engine))).
Proof.
  unfold deleteCourse, bind, ret, transaction, commit. cbn.
  rewrite exec_run. cbn.
  destruct (nextOutcome engine); cbn; rewrite exec_run; cbn;
    destruct (nextOutcome (tail engine)); cbn; by destruct db.
Qed.

(** X2: when the engine carries out both [DELETE] statements,
    [deleteCourse] leaves no course with the id and no assignment that
    refers to it, closes its transaction, and keeps every other course
    and assignment. *)
Theorem deleteCourse_cascade (courseId : Z) (db : Db) (engine : list bool) :
  let after := (deleteCourse (Some courseId) true (idle db (true :: true :: engine))).2 in
  snapshot after = None ∧
  (courseId ∉ c_id <$> courses (view after)) ∧
  (courseId ∉ a_course_id <$> assignments (view after)) ∧
  courses (view after) = filter (λ c, c_id c ≠ courseId) (courses db) ∧
  assignments (view after) = filter (λ a, a_course_id a ≠ courseId) (assignments db).
Proof.
  cbv zeta. rewrite deleteCourse_run. cbn.
  split; [done|]. split; [|split; [|done]].
  - intros Hin. apply list_elem_of_fmap in Hin as (x & -> & Hx).
    by apply list_elem_of_filter in Hx as [Hne _].
  - intros Hin. apply list_elem_of_fmap in Hin as (x & -> & Hx).
    by apply list_elem_of_filter in Hx as [Hne _].
Qed.

(** C2, where the code departs from it: [deleteCourse] commits whatever
    its two [DELETE] statements did. When the first fails and the second
    is carried out, the committed store has lost the course and kept the
    assignments that refer to it; when the first is carried out and the
    second fails, it has lost the assignments and kept the course. *)
Theorem deleteCourse_commits_half_a_cascade :
  let courseGone := (deleteCourse (Some 1) true (idle essayFirst [false; true])).2 in
  let courseKept := (deleteCourse (Some 1) true (idle essayFirst [true; false])).2 in
  courses essayFirst = [cs101] ∧ assignments essayFirst = [essay; quiz] ∧
  snapshot courseGone = None ∧
  courses (durable courseGone) = [] ∧ assignments (durable courseGone) = [essay; quiz] ∧
  snapshot courseKept = None ∧
  courses (durable courseKept) = [cs101] ∧ assignments (durable courseKept) = [].
Proof. cbv zeta. repeat split; reflexivity. Qed.

(** ** The due instant of an assignment *)

Lemma AssignmentDialog_onSave_add_run courseId_ editAssignmentId_ type_ title_ dueDate_
    topics_ notes_ db engine :
  editAssignmentId_ < 0 →
  AssignmentDialog_onSave courseId_ editAssignmentId_ type_ title_ dueDate_ topics_ notes_
    (idle db engine)
  = if nextOutcome engine
    then (Accepted (next_rowid (a_id <$> assignments db) (seq_assignments db)),
          idle (mkDb (users db) (semesters db) (courses db)
                  (assignments db ++
                     [mkAssignmentRow
                        (next_rowid (a_id <$> assignments db) (seq_assignments db))
                        courseId_ type_ title_ (toSecsSinceEpoch (toUTC dueDate_))
                        (nullIfEmpty topics_) (nullIfEmpty notes_)])
                  (seq_users db) (seq_semesters db) (seq_courses db)
                  (next_rowid (a_id <$> assignments db) (seq_assignments db)))
               (tail engine))
    else (Shown (warning "Error" "Could not save assignment."), idle db (tail engine)).
Proof.
  intros Hid. unfold AssignmentDialog_onSave, bind, ret, transaction, commit, rollback.
  cbn. rewrite bool_decide_eq_true_2 by lia. rewrite exec_run. cbn.
  by destruct (nextOutcome engine).
Qed.

(** C7, as the code has it: the due instant is stored in whole seconds.
    An assignment created with due instant [dueDate_] reads back, in the
    Upcoming list and in the edit dialog alike, as that instant truncated
    to the second: the same instant when [dueDate_] is a whole number of
    seconds. The value read back depends on the instant alone, not on the
    time specification it was entered in nor on the reader's zone, which
    only shifts the wall clock shown. *)
Theorem assignment_due_round_trip (courseId_ : Z) (type_ title_ : string)
    (dueDate_ : QDateTime) (topics_ notes_ : string) (db : Db) (engine : list bool)
    (assignmentId : Z) :
  (AssignmentDialog_onSave courseId_ (-1) type_ title_ dueDate_ topics_ notes_
     (idle db engine)).1 = Accepted assignmentId →
  let after :=
    view (AssignmentDialog_onSave courseId_ (-1) type_ title_ dueDate_ topics_ notes_
            (idle db engine)).2 in
  let seconds := msecsSinceEpoch dueDate_ `quot` 1000 in
  ∃ row,
    last (assignments after) = Some row ∧ a_id row = assignmentId ∧
    a_due_at_utc row = seconds ∧
    msecsSinceEpoch (dueAtUtc (fetchAssignment row)) = seconds * 1000 ∧
    msecsSinceEpoch (AssignmentDialog_loadDue (a_due_at_utc row)) = seconds * 1000 ∧
    (∀ offsetSecs,
       wallClockMSecs offsetSecs (AssignmentDialog_loadDue (a_due_at_utc row))
       = seconds * 1000 + offsetSecs * 1000) ∧
    (msecsSinceEpoch dueDate_ `rem` 1000 = 0 →
     msecsSinceEpoch (dueAtUtc (fetchAssignment row)) = msecsSinceEpoch dueDate_).
Proof.
  cbv zeta. rewrite AssignmentDialog_onSave_add_run by lia.
  destruct (nextOutcome engine); [|discriminate].
  cbn [fst snd view idle assignments]. intros [= <-].
  eexists. split; [apply last_snoc|]. cbn.
  repeat split; try done.
  intros Hrem. unfold toSecsSinceEpoch, toUTC. cbn.
  pose proof (Z.quot_rem' (msecsSinceEpoch dueDate_) 1000). lia.
Qed.

(** An essay due at 10:00:00.000 reads back as due at that instant. *)
Lemma assignment_due_round_trip_witness :
  (AssignmentDialog_onSave 1 (-1) "Essay" "Reading response"
     (mkQDateTime 1727776800000 LocalTime) "" "" (idle oneCourse [])).1 = Accepted 1 ∧
  ∃ row,
    last (assignments
            (view (AssignmentDialog_onSave 1 (-1) "Essay" "Reading response"
                     (mkQDateTime 1727776800000 LocalTime) "" "" (idle oneCourse [])).2))
    = Some row ∧
    msecsSinceEpoch (dueAtUtc (fetchAssignment row)) = 1727776800000.
Proof.
  split; [reflexivity|].
  destruct (assignment_due_round_trip 1 "Essay" "Reading response"
              (mkQDateTime 1727776800000 LocalTime) "" "" oneCourse [] 1 eq_refl)
    as (row & Hlast & _ & _ & _ & _ & _ & Hsame).
  exists row. split; [exact Hlast|]. apply Hsame. reflexivity.
Defined.

(** Counterexample to C7 as stated: an essay saved as due at 10:00:00.250 is shown as
    due at 10:00:00.000. *)
Lemma assignment_due_loses_milliseconds :
  let dueDate_ := mkQDateTime 1727776800250 LocalTime in
  let saved := AssignmentDialog_onSave 1 (-1) "Essay" "Reading response" dueDate_ "" ""
                 (idle oneCourse []) in
  saved.1 = Accepted 1 ∧
  (dueAtUtc ∘ shown_assignment) <$> (reloadUpcoming 1 1 saved.2).1
    = [mkQDateTime 1727776800000 UTC] ∧
  msecsSinceEpoch (mkQDateTime 1727776800000 UTC) ≠ msecsSinceEpoch dueDate_.
Proof. cbv zeta. split; [reflexivity|]. split; [by vm_compute|]. cbn. lia. Qed.

(** X3: an assignment saved with the topics or the notes field empty
    stores NULL in that column, not the empty string. *)
Theorem AssignmentDialog_onSave_empty_text_is_null (courseId_ : Z) (type_ title_ : string)
    (dueDate_ : QDateTime) (topics_ notes_ : string) (db : Db) (engine : list bool) :
  let after :=
    view (AssignmentDialog_onSave courseId_ (-1) type_ title_ dueDate_ topics_ notes_
            (idle db (true :: engine))).2 in
  ∃ row,
    last (assignments after) = Some row ∧
    a_topics row = (if bool_decide (topics_ = "") then None else Some topics_) ∧
    a_notes row = (if bool_decide (notes_ = "") then None else Some notes_) ∧
    a_topics row ≠ Some "" ∧ a_notes row ≠ Some "".
Proof.
  cbv zeta. rewrite AssignmentDialog_onSave_add_run by lia.
  cbn [nextOutcome hd snd view idle assignments]. eexists.
  split; [apply last_snoc|]. cbn. unfold nullIfEmpty.
  repeat split; try done; case_bool_decide; congruence.
Qed.

(** ** The course codes of the Upcoming list *)

Lemma upcoming_join_elem semesterId userId db r :
  r ∈ upcoming_join semesterId userId db →
  r ∈ assignments db ∧
  ∃ c, c ∈ courses db ∧ c_id c = a_course_id r ∧
       c_semester_id c = semesterId ∧ c_user_id c = userId.
Proof.
  unfold upcoming_join. intros Hr.
  apply list_elem_of_bind in Hr as (a & Hr & Ha).
  apply list_elem_of_bind in Hr as (c & Hr & Hc).
  destruct (bool_decide _) eqn:Hb; [|by apply elem_of_nil in Hr].
  apply bool_decide_eq_true in Hb as (H1 & H2 & H3).
  apply list_elem_of_singleton in Hr as ->.
  split; [done|]. exists c. done.
Qed.

Lemma labelAll_elem cs engine popped it :
  it ∈ labelAll cs engine popped →
  shown_assignment it ∈ popped ∧
  (shown_code it = "" ∨
   ∃ c, head (filter (λ c, c_id c = courseId (shown_assignment it)) cs) = Some c ∧
        shown_code it = c_code c).
Proof.
  revert engine. induction popped as [|a rest IH]; intros engine Hit;
    [by apply elem_of_nil in Hit|].
  cbn [labelAll] in Hit. apply elem_of_cons in Hit as [->|Hit].
  - split; [left|]. cbn.
    destruct (nextOutcome engine); [|by left].
    destruct (filter _ cs) as [|c cs']; [by left|]. right. by exists c.
  - destruct (IH _ Hit) as [Hin Hcode]. split; [by right|done].
Qed.

Lemma labelAll_elem_carried_out cs popped it :
  it ∈ labelAll cs [] popped →
  (∀ a, a ∈ popped → courseId a ∈ c_id <$> cs) →
  ∃ c, head (filter (λ c, c_id c = courseId (shown_assignment it)) cs) = Some c ∧
       shown_code it = c_code c.
Proof.
  induction popped as [|a rest IH]; intros Hit Hall; [by apply elem_of_nil in Hit|].
  cbn [labelAll tail] in Hit. apply elem_of_cons in Hit as [->|Hit].
  - cbn. destruct (filter (λ c, c_id c = courseId a) cs) as [|c cs'] eqn:Hf.
    + apply filter_nil_not_elem in Hf. destruct Hf. apply Hall. left.
    + by exists c.
  - apply IH; [done|]. intros a' Ha'. apply Hall. by right.
Qed.

Lemma reloadUpcoming_elem userId_ semesterId_ s it :
  it ∈ (reloadUpcoming userId_ semesterId_ s).1 →
  ∃ r c, r ∈ assignments (view s) ∧ shown_assignment it = fetchAssignment r ∧
         c ∈ courses (view s) ∧ c_id c = a_course_id r ∧
         c_semester_id c = semesterId_ ∧ c_user_id c = userId_.
Proof.
  rewrite reloadUpcoming_labels.
  destruct (bool_decide (semesterId_ < 0)); [intros Hit; by apply elem_of_nil in Hit|].
  intros Hit. apply labelAll_elem in Hit as [Hit _].
  eapply elem_of_submseteq in Hit; [|apply popLoop_submseteq, pushAll_heap].
  rewrite pushAll_perm in Hit. apply list_elem_of_fmap in Hit as (r & Hr & Hin).
  destruct (nextOutcome (outcomes s)); [|by apply elem_of_nil in Hin].
  rewrite order_by_Permutation in Hin.
  apply upcoming_join_elem in Hin as (Hra & c & Hc & Hid & Hsem & Husr).
  exists r, c. done.
Qed.

(** C9, as the code has it: the Upcoming query joins the assignments to
    their courses, so every entry shown belongs to an existing course of
    the scope, and an assignment whose course reference resolves to no
    course is left out of the list without any report. When the engine
    carries out every statement, the label of an entry carries the code of
    the course row its [courseId] selects. *)
Theorem reloadUpcoming_joins_existing_courses (userId_ semesterId_ : Z) (s : Session) :
  let upcoming_ := (reloadUpcoming userId_ semesterId_ s).1 in
  (∀ it, it ∈ upcoming_ →
     ∃ r c, r ∈ assignments (view s) ∧ shown_assignment it = fetchAssignment r ∧
            c ∈ courses (view s) ∧ c_id c = a_course_id r ∧
            c_semester_id c = semesterId_ ∧ c_user_id c = userId_) ∧
  (∀ r, r ∈ assignments (view s) → a_course_id r ∉ c_id <$> courses (view s) →
     fetchAssignment r ∉ shown_assignment <$> upcoming_) ∧
  (outcomes s = [] →
   ∀ it, it ∈ upcoming_ →
     ∃ c, head (filter (λ c, c_id c = courseId (shown_assignment it)) (courses (view s)))
          = Some c ∧ shown_code it = c_code c).
Proof.
  cbv zeta. split; [|split].
  - intros it. apply reloadUpcoming_elem.
  - intros r Hr Hdangling Hshown.
    apply list_elem_of_fmap in Hshown as (it & Hfetch & Hit).
    apply reloadUpcoming_elem in Hit as (r' & c & _ & Hr' & Hc & Hid & _).
    destruct Hdangling. rewrite Hr' in Hfetch.
    assert (a_course_id r = a_course_id r') as -> by (by inversion Hfetch).
    rewrite <- Hid. by apply list_elem_of_fmap_2.
  - intros Hall it Hit.
    assert (Hall' : ∀ it', it' ∈ (reloadUpcoming userId_ semesterId_ s).1 →
              courseId (shown_assignment it') ∈ c_id <$> courses (view s)).
    { intros it' Hit'.
      apply reloadUpcoming_elem in Hit' as (r' & c & _ & -> & Hc & Hid & _).
      cbn. rewrite <- Hid. by apply list_elem_of_fmap_2. }
    rewrite reloadUpcoming_labels in Hit, Hall'.
    destruct (bool_decide (semesterId_ < 0)); [by apply elem_of_nil in Hit|].
    rewrite Hall in Hit, Hall'. cbn [tail] in Hit, Hall'.
    eapply labelAll_elem_carried_out; [exact Hit|].
    intros a Ha.
    rewrite <- (labelAll_assignments (courses (view s)) []) in Ha.
    apply list_elem_of_fmap in Ha as (it' & -> & Hit'). by apply Hall'.
Qed.

(** Counterexample to C9 as stated: [orphaned] is what a half cascade of [deleteCourse]
    leaves of [twoCourses]; its problem set refers to no course, and the
    Upcoming list shows the essay alone, with nothing reported. An entry
    whose code lookup fails is shown with an empty code. *)
Lemma reloadUpcoming_skips_orphans_silently :
  deleteCourse (Some 2) true (idle twoCourses [false; true]) = (None, idle orphaned []) ∧
  problemSet ∈ assignments orphaned ∧
  (a_course_id problemSet ∉ c_id <$> courses orphaned) ∧
  (reloadUpcoming 1 1 (idle orphaned [])).1
  = [mkUpcomingItem (fetchAssignment essay) "CS101"] ∧
  (reloadUpcoming 1 1 (idle oneAssignment [true; false])).1
  = [mkUpcomingItem (fetchAssignment essay) ""] ∧
  (∀ formatLocal,
     itemText formatLocal <$> (reloadUpcoming 1 1 (idle oneAssignment [true; false])).1
     = ["[Essay]  — Reading response (" +:+
        formatLocal (mkQDateTime 1727776800000 LocalTime) +:+ ")"]).
Proof.
  split; [reflexivity|]. split; [right; left|]. split.
  - cbn. intros Hin. apply list_elem_of_singleton in Hin. discriminate.
  - split; [by vm_compute|]. split; [by vm_compute|]. intros formatLocal. reflexivity.
Qed.

(** ** Picking a semester *)

Lemma select_semester_key term_ year_ db :
  select_semester term_ year_ db
  = Some (s_id <$> filter (λ s, semesterKey s = (term_, year_)) (semesters db), db).
Proof.
  unfold select_semester. do 2 f_equal. f_equal.
  apply list_filter_iff. intros s. unfold semesterKey. split.
  - by intros [-> ->].
  - by intros [= -> ->].
Qed.

Lemma SemesterPicker_onOk_run term_ year_ db engine :
  SemesterPicker_onOk term_ year_ (idle db engine)
  = match (if nextOutcome engine
           then s_id <$> filter (λ s, semesterKey s = (term_, year_)) (semesters db)
           else []) with
    | id :: _ => (id, idle db (tail engine))
    | [] =>
        if nextOutcome (tail engine) && bool_decide (term_ = "Fall" ∨ term_ = "Spring")
        then (next_rowid (s_id <$> semesters db) (seq_semesters db),
              idle (mkDb (users db)
                      (semesters db ++
                         [mkSemesterRow (next_rowid (s_id <$> semesters db) (seq_semesters db))
                            term_ year_])
                      (courses db) (assignments db)
                      (seq_users db) (next_rowid (s_id <$> semesters db) (seq_semesters db))
                      (seq_courses db) (seq_assignments db))
                   (tail (tail engine)))
        else (-1, idle db (tail (tail engine)))
    end.
Proof.
  unfold SemesterPicker_onOk, bind, ret. rewrite exec_run, select_semester_key.
  unfold nextOutcome, transaction, commit, rollback, exec, insert_semester.
  destruct engine as [|[|] [|[|] rest]]; cbn;
    destruct (filter (λ s, semesterKey s = (term_, year_)) (semesters db)) as [|r rs];
    cbn; try done;
    destruct (bool_decide (term_ = "Fall" ∨ term_ = "Spring")); done.
Qed.

Lemma showLoop_session k pq s :
  view (showLoop k pq s).2 = view s ∧ snapshot (showLoop k pq s).2 = snapshot s.
Proof.
  revert pq s. induction k as [|k IH]; intros pq s; [done|].
  destruct pq as [|a c]; cbn [showLoop pq_empty pq_top head]; [done|].
  unfold bind, ret, select_course_code. rewrite exec_query.
  specialize (IH (pq_pop DueSooner (a :: c))
                 (mkSession (view s) (snapshot s) (tail (outcomes s)))).
  destruct (showLoop k (pq_pop DueSooner (a :: c)) _) as [rest s2]. done.
Qed.

Lemma reloadUpcoming_session userId_ semesterId_ s :
  view (reloadUpcoming userId_ semesterId_ s).2 = view s ∧
  snapshot (reloadUpcoming userId_ semesterId_ s).2 = snapshot s.
Proof.
  unfold reloadUpcoming. destruct (bool_decide (semesterId_ < 0)); [done|].
  unfold bind, select_upcoming. rewrite exec_query.
  match goal with
  | |- context [showLoop ?k ?pq ?s1] => destruct (showLoop_session k pq s1) as [-> ->]
  end.
  done.
Qed.

Lemma fire_keeps_semesters Sha256 slot db engine :
  (∀ term_ year_, slot ≠ PickSemester term_ year_) →
  snapshot (fire Sha256 slot (idle db engine)) = None ∧
  semesters (view (fire Sha256 slot (idle db engine))) = semesters db.
Proof.
  intros Hslot. destruct slot; cbn [fire].
  - run_slot engine.
  - run_slot engine.
  - by destruct (Hslot term_ year_).
  - run_slot engine.
  - run_slot engine.
  - run_slot engine.
  - run_slot engine.
  - destruct (reloadUpcoming_session userId_ semesterId_ (idle db engine)) as [-> ->].
    done.
Qed.

(** X26: in a store where (term, year) identifies a semester, and when
    the engine carries out the lookups and the insert, picking the same
    valid (term, year) twice yields the same semester id both times and
    leaves exactly one row for the key. Every slot leaves no transaction
    open and keeps (term, year) unique, a semester pick when its lookup is
    carried out. *)
Theorem SemesterPicker_onOk_get_or_create (Sha256 : string → QByteArray) :
  (∀ db engine1 engine2 term_ year_,
     semesters_unique db → term_ = "Fall" ∨ term_ = "Spring" →
     nextOutcome engine1 = true → nextOutcome (tail engine1) = true →
     nextOutcome engine2 = true →
     let first := SemesterPicker_onOk term_ year_ (idle db engine1) in
     let second := SemesterPicker_onOk term_ year_ (idle (view first.2) engine2) in
     first.1 = second.1 ∧ view second.2 = view first.2 ∧
     snapshot first.2 = None ∧ snapshot second.2 = None ∧
     filter (λ s, semesterKey s = (term_, year_)) (semesters (view second.2))
     = [mkSemesterRow first.1 term_ year_] ∧
     semesters_unique (view second.2)) ∧
  (∀ slot db engine,
     semesters_unique db →
     (∀ term_ year_, slot = PickSemester term_ year_ → nextOutcome engine = true) →
     snapshot (fire Sha256 slot (idle db engine)) = None ∧
     semesters_unique (view (fire Sha256 slot (idle db engine)))).
Proof.
  assert (Hhit : ∀ db engine term_ year_ r rest,
    filter (λ s, semesterKey s = (term_, year_)) (semesters db) = r :: rest →
    nextOutcome engine = true →
    SemesterPicker_onOk term_ year_ (idle db engine) = (s_id r, idle db (tail engine))).
  { intros db engine term_ year_ r rest Hf Hok.
    by rewrite SemesterPicker_onOk_run, Hok, Hf. }
  assert (Hmiss : ∀ db term_ year_,
    semesters_unique db →
    filter (λ s, semesterKey s = (term_, year_)) (semesters db) = [] →
    ∀ rowid seq,
    semesters_unique
      (mkDb (users db) (semesters db ++ [mkSemesterRow rowid term_ year_])
            (courses db) (assignments db) (seq_users db) seq (seq_courses db)
            (seq_assignments db)) ∧
    filter (λ s, semesterKey s = (term_, year_))
      (semesters db ++ [mkSemesterRow rowid term_ year_])
    = [mkSemesterRow rowid term_ year_]).
  { intros db term_ year_ Hu Hf rowid seq. split.
    - unfold semesters_unique. cbn. rewrite fmap_app. apply NoDup_app.
      split; [done|]. split; [|apply NoDup_singleton].
      intros k Hk Hk'. cbn in Hk'. apply list_elem_of_singleton in Hk' as ->.
      by apply filter_nil_not_elem in Hf.
    - rewrite filter_app, Hf, filter_cons, filter_nil.
      by rewrite decide_True. }
  split.
  - intros db engine1 engine2 term_ year_ Hu Hterm Hok1 Hok1' Hok2. cbv zeta.
    destruct (filter (λ s, semesterKey s = (term_, year_)) (semesters db))
      as [|r rest] eqn:Hf.
    + rewrite (SemesterPicker_onOk_run term_ year_ db engine1), Hok1, Hok1', Hf.
      rewrite bool_decide_eq_true_2 by done. cbn [fmap list_fmap andb fst snd view idle].
      destruct (Hmiss db term_ year_ Hu Hf
                  (next_rowid (s_id <$> semesters db) (seq_semesters db))
                  (next_rowid (s_id <$> semesters db) (seq_semesters db)))
        as [Hu' Hf'].
      rewrite (Hhit (mkDb (users db)
                       (semesters db ++
                          [mkSemesterRow (next_rowid (s_id <$> semesters db) (seq_semesters db))
                             term_ year_])
                       (courses db) (assignments db) (seq_users db)
                       (next_rowid (s_id <$> semesters db) (seq_semesters db))
                       (seq_courses db) (seq_assignments db))
                 engine2 term_ year_ _ [] Hf' Hok2).
      cbn. done.
    + pose proof (filter_key_unique semesterKey _ _ _ _ Hu Hf) as ->.
      rewrite (Hhit db engine1 term_ year_ r [] Hf Hok1). cbn [fst snd view idle].
      rewrite (Hhit db engine2 term_ year_ r [] Hf Hok2). cbn [fst snd view idle snapshot].
      rewrite Hf. repeat split; try done.
      assert (r ∈ filter (λ s, semesterKey s = (term_, year_)) (semesters db)) as Hr
        by (rewrite Hf; left).
      apply list_elem_of_filter in Hr as [Hk _]. destruct r. by inversion Hk.
  - intros slot db engine Hu Hpick.
    assert (Hcase : (∃ term_ year_, slot = PickSemester term_ year_) ∨
                    (∀ term_ year_, slot ≠ PickSemester term_ year_)).
    { destruct slot; try (by right); left; eauto. }
    destruct Hcase as [(term_ & year_ & ->)|Hother].
    + specialize (Hpick term_ year_ eq_refl). cbn [fire].
      rewrite SemesterPicker_onOk_run, Hpick.
      destruct (filter (λ s, semesterKey s = (term_, year_)) (semesters db))
        as [|r rest] eqn:Hf; cbn [fmap list_fmap]; [|done].
      destruct (_ && _); [|done]. cbn. split; [done|].
      by apply (Hmiss db term_ year_ Hu Hf).
    + destruct (fire_keeps_semesters Sha256 slot db engine Hother) as [Hsnap Hsem].
      split; [done|]. unfold semesters_unique. by rewrite Hsem.
Qed.

(** Picking Fall 2024 twice, starting without semesters: id 1 both times,
    and one row for the key. *)
Lemma SemesterPicker_onOk_get_or_create_witness :
  (SemesterPicker_onOk "Fall" 2024 (idle aliceOnly [])).1 = 1 ∧
  (SemesterPicker_onOk "Fall" 2024 (idle aliceFall [])).1 = 1 ∧
  filter (λ s, semesterKey s = ("Fall", 2024))
    (semesters (view (SemesterPicker_onOk "Fall" 2024 (idle aliceFall [])).2))
  = [mkSemesterRow 1 "Fall" 2024].
Proof.
  destruct (proj1 (SemesterPicker_onOk_get_or_create sampleDigest)
              aliceOnly [] [] "Fall" 2024 (NoDup_nil_2 : semesters_unique aliceOnly) (or_introl eq_refl)
              eq_refl eq_refl eq_refl)
    as (Hsame & _ & _ & _ & Hone & _).
  split; [reflexivity|]. split; [exact (eq_sym Hsame)|]. exact Hone.
Defined.

(** C4: the code does not keep the claim where a lookup fails.  The
    first pick of Fall 2024 creates semester 1; a second pick whose
    [SELECT] fails takes the failure for a missing row, inserts a second
    row for Fall 2024 and ends with id 2: two picks, two ids and two rows
    for one key.  A course then saved under semester 2 is listed there,
    and is missing from the list once the next pick, its lookup carried
    out, ends with id 1 again. *)
Theorem SemesterPicker_onOk_failed_lookup_duplicates :
  semesters_unique aliceOnly ∧
  SemesterPicker_onOk "Fall" 2024 (idle aliceOnly []) = (1, idle aliceFall []) ∧
  SemesterPicker_onOk "Fall" 2024 (idle aliceFall [false])
  = (2, idle (mkDb [aliceRow] [fall2024; mkSemesterRow 2 "Fall" 2024] [] [] 1 2 0 0) []) ∧
  filter (λ s, semesterKey s = ("Fall", 2024))
    (semesters (view (SemesterPicker_onOk "Fall" 2024 (idle aliceFall [false])).2))
  = [fall2024; mkSemesterRow 2 "Fall" 2024] ∧
  ¬ semesters_unique (view (SemesterPicker_onOk "Fall" 2024 (idle aliceFall [false])).2) ∧
  let saved := CourseDialog_onSave 1 2 (-1) "CS101" "Intro" ""
                 (SemesterPicker_onOk "Fall" 2024 (idle aliceFall [false])).2 in
  saved.1 = Accepted 1 ∧
  (loadCourses 1 2 saved.2).1 = [mkQListWidgetItem "CS101 — Intro" 1] ∧
  (SemesterPicker_onOk "Fall" 2024 saved.2).1 = 1 ∧
  (loadCourses 1 1 saved.2).1 = [].
Proof.
  split; [apply NoDup_nil_2|]. split; [reflexivity|]. split; [reflexivity|].
  split; [reflexivity|]. split.
  - intros Hunique. apply NoDup_cons in Hunique as [Hnew _]. apply Hnew. left.
  - cbv zeta. repeat split; reflexivity.
Qed.

(** ** Assignment types and the comparator *)

Lemma toString_parseAssignType s :
  s ∈ typeItems → toString (parseAssignType s) = s.
Proof.
  intros Hs. unfold typeItems in Hs.
  repeat (apply elem_of_cons in Hs as [->|Hs]; [reflexivity|]).
  by apply elem_of_nil in Hs.
Qed.

(** X4: [parseAssignType] undoes [toString] on every assignment type; the
    seven entries of the dialog's type box are the seven names [toString]
    gives, and each of them is read and written back unchanged; every
    other text is read as [Other]. *)
Theorem parseAssignType_toString :
  (∀ t, parseAssignType (toString t) = t) ∧
  typeItems = toString <$> [HW; Quiz; Midterm; Final; Project; Essay; Other] ∧
  (∀ s, s ∈ typeItems → toString (parseAssignType s) = s) ∧
  (∀ s, s ∉ typeItems → parseAssignType s = Other).
Proof.
  split; [by intros []|]. split; [reflexivity|]. split.
  - apply toString_parseAssignType.
  - intros s Hs. unfold parseAssignType.
    repeat (case_bool_decide as Heq;
            [destruct Hs; rewrite Heq; unfold typeItems;
             repeat (first [left; reflexivity | right]) |]; clear Heq).
    reflexivity.
Qed.

(** X5: [DueSooner] is a strict weak ordering, as a comparator of
    [std::priority_queue] has to be: it is irreflexive and transitive,
    being incomparable is transitive, and two assignments that are
    incomparable are due at the same instant. *)
Theorem DueSooner_strict_weak_ordering :
  (∀ a, DueSooner a a = false) ∧
  (∀ a b c, DueSooner a b = true → DueSooner b c = true → DueSooner a c = true) ∧
  (∀ a b c, DueSooner a b = false → DueSooner b a = false →
            DueSooner b c = false → DueSooner c b = false →
            DueSooner a c = false ∧ DueSooner c a = false) ∧
  (∀ a b, DueSooner a b = false → DueSooner b a = false →
          msecsSinceEpoch (dueAtUtc a) = msecsSinceEpoch (dueAtUtc b)).
Proof.
  unfold DueSooner, QDateTime_gt.
  repeat split; intros; repeat case_bool_decide; try done; lia.
Qed.

(** ** Logging in after registering *)

Lemma onLogin_run Sha256 user_ pass_ db engine :
  onLogin Sha256 user_ pass_ (idle db engine)
  = (match (if nextOutcome engine
            then filter (λ u, u_username u = user_) (users db) else []) with
     | u :: _ =>
         if bool_decide (u_password_hash u ≠ hashPassword Sha256 pass_)
         then Shown (warning "Login failed" "Incorrect password.")
         else Accepted (u_id u)
     | [] => Shown (warning "Login failed" "User not found.")
     end,
     idle db (tail engine)).
Proof.
  unfold onLogin, bind, ret, select_user. rewrite exec_query. cbn.
  destruct (nextOutcome engine); [|done].
  destruct (filter _ (users db)) as [|u rest]; [done|]. cbn.
  by case_bool_decide.
Qed.

Lemma onRegister_run Sha256 user_ pass_ now db engine :
  onRegister Sha256 user_ pass_ now (idle db engine)
  = if nextOutcome engine && negb (bool_decide (user_ ∈ u_username <$> users db))
    then (information "Registered" "User created. Please login.",
          idle (mkDb (users db ++
                        [mkUserRow (next_rowid (u_id <$> users db) (seq_users db))
                           user_ (hashPassword Sha256 pass_) now])
                  (semesters db) (courses db) (assignments db)
                  (next_rowid (u_id <$> users db) (seq_users db))
                  (seq_semesters db) (seq_courses db) (seq_assignments db))
               (tail engine))
    else (warning "Register failed" "Username exists?", idle db (tail engine)).
Proof.
  unfold onRegister, bind, ret, transaction. cbn. rewrite exec_run. cbn.
  unfold insert_user.
  destruct (nextOutcome engine); [|done]. cbn.
  by case_bool_decide.
Qed.

Lemma next_rowid_fresh ids seq : Forall (λ i, i < next_rowid ids seq) ids.
Proof.
  unfold next_rowid. induction ids as [|i ids IH]; [constructor|].
  cbn. constructor; [lia|].
  eapply Forall_impl; [exact IH|]. intros j Hj. cbn in Hj. lia.
Qed.

Lemma next_rowid_not_elem ids seq : next_rowid ids seq ∉ ids.
Proof.
  intros Hin. pose proof (next_rowid_fresh ids seq) as Hf.
  rewrite Forall_forall in Hf. specialize (Hf _ Hin). lia.
Qed.

Lemma next_rowid_seq ids seq : seq < next_rowid ids seq ∧ 0 < next_rowid ids seq.
Proof.
  unfold next_rowid.
  assert (0 ≤ foldr Z.max 0 ids) by (induction ids; cbn; lia). lia.
Qed.

(** X6: a login is accepted with a user id exactly when the lookup is
    carried out, the first row it yields for the username carries that id,
    and the stored digest equals the digest of the password entered; the
    slot runs one statement and leaves the store as it was. *)
Theorem onLogin_accepts (Sha256 : string → QByteArray) (db : Db) (engine : list bool)
    (user_ pass_ : string) (userId : Z) (after : Session) :
  onLogin Sha256 user_ pass_ (idle db engine) = (Accepted userId, after) ↔
  nextOutcome engine = true ∧ after = idle db (tail engine) ∧
  ∃ u rest, filter (λ u, u_username u = user_) (users db) = u :: rest ∧
            u_id u = userId ∧ u_password_hash u = hashPassword Sha256 pass_.
Proof.
  rewrite onLogin_run. split.
  - intros Heq. destruct (nextOutcome engine); [|done].
    destruct (filter _ (users db)) as [|u rest]; [done|].
    case_bool_decide as Hh; [done|]. simplify_eq.
    split; [done|]. split; [reflexivity|]. by exists u, rest.
  - intros (-> & -> & u & rest & -> & <- & Hh).
    by rewrite bool_decide_eq_false_2 by (by intros []).
Qed.

(** X7: after a registration of a fresh username that the engine carries
    out, a login with the same password is accepted with the id of the new
    row, a login with a password of another digest is refused with
    "Incorrect password.", and every user registered before keeps the row
    they had and gets from a login, whatever password is entered, the
    answer they got before the registration. *)
Theorem register_then_login (Sha256 : string → QByteArray) (db : Db) (engine : list bool)
    (user_ pass_ : string) (now : Z) :
  user_ ∉ u_username <$> users db →
  nextOutcome engine = true → nextOutcome (tail engine) = true →
  let registered := onRegister Sha256 user_ pass_ now (idle db engine) in
  registered.1 = information "Registered" "User created. Please login." ∧
  snapshot registered.2 = None ∧
  (onLogin Sha256 user_ pass_ registered.2).1
  = Accepted (next_rowid (u_id <$> users db) (seq_users db)) ∧
  (∀ other, hashPassword Sha256 other ≠ hashPassword Sha256 pass_ →
     (onLogin Sha256 user_ other registered.2).1
     = Shown (warning "Login failed" "Incorrect password.")) ∧
  (∀ u password, u ∈ users db →
     (onLogin Sha256 (u_username u) password registered.2).1
     = (onLogin Sha256 (u_username u) password (idle db (tail engine))).1 ∧
     u ∈ users (view registered.2)).
Proof.
  intros Hnew H1 H2. cbv zeta. rewrite onRegister_run, H1.
  rewrite bool_decide_eq_false_2 by done. cbn [andb negb fst snd snapshot idle].
  assert (filter (λ u, u_username u = user_) (users db) = []) as Hnone
    by (by apply filter_nil_not_elem).
  split; [done|]. split; [done|].
  split; [|split]; intros; [| |split; [|by apply elem_of_app; left]];
    rewrite !onLogin_run; cbn [fst users]; rewrite H2, filter_app;
    rewrite (filter_cons _ (mkUserRow _ _ _ _)); cbn.
  - rewrite Hnone, decide_True by done. cbn.
    by rewrite bool_decide_eq_false_2 by (by intros []).
  - rewrite Hnone, decide_True by done. cbn.
    by rewrite bool_decide_eq_true_2 by done.
  - rewrite decide_False; [by rewrite app_nil_r|].
    intros Heq. destruct Hnew. rewrite Heq. by apply list_elem_of_fmap_2.
Qed.

(** Bob registers after Alice: he logs in with his password and not with
    hers, and she logs in with hers and not with his. *)
Lemma register_then_login_witness :
  let registered := onRegister sampleDigest "bob" "battery staple" 1725000600
                      (idle aliceOnly []) in
  (onLogin sampleDigest "bob" "battery staple" registered.2).1 = Accepted 2 ∧
  (onLogin sampleDigest "bob" "correct horse" registered.2).1
  = Shown (warning "Login failed" "Incorrect password.") ∧
  (onLogin sampleDigest "alice" "correct horse" registered.2).1 = Accepted 1 ∧
  (onLogin sampleDigest "alice" "battery staple" registered.2).1
  = Shown (warning "Login failed" "Incorrect password.").
Proof.
  cbv zeta.
  destruct (register_then_login sampleDigest aliceOnly [] "bob" "battery staple" 1725000600)
    as (_ & _ & Hsame & Hother & Hbefore); [| reflexivity | reflexivity |].
  - cbn. intros Hin. apply list_elem_of_singleton in Hin. discriminate.
  - split; [exact Hsame|]. split; [apply Hother; discriminate|].
    assert (aliceRow ∈ users aliceOnly) as Halice by left.
    split.
    + etransitivity; [exact (proj1 (Hbefore aliceRow "correct horse" Halice))|reflexivity].
    + etransitivity; [exact (proj1 (Hbefore aliceRow "battery staple" Halice))|reflexivity].
Defined.

(** ** What a save leaves behind *)

Lemma withAssignments_same db : withAssignments db (assignments db) = db.
Proof. by destruct db. Qed.

Lemma updatedAssignment_absent type title due topics notes assignmentId
    (rows : list AssignmentRow) :
  assignmentId ∉ a_id <$> rows →
  updatedAssignment type title due topics notes assignmentId <$> rows = rows.
Proof.
  induction rows as [|a rows IH]; intros Hno; [done|].
  cbn in *. apply not_elem_of_cons in Hno as [Ha Hno].
  rewrite IH by done. unfold updatedAssignment at 1.
  by rewrite bool_decide_eq_false_2 by done.
Qed.

Lemma AssignmentDialog_onSave_edit_run courseId_ editAssignmentId_ type_ title_ dueDate_
    topics_ notes_ db engine :
  0 ≤ editAssignmentId_ →
  AssignmentDialog_onSave courseId_ editAssignmentId_ type_ title_ dueDate_ topics_ notes_
    (idle db engine)
  = if nextOutcome engine
    then (Accepted editAssignmentId_,
          idle (withAssignments db
                  (updatedAssignment type_ title_ (toSecsSinceEpoch (toUTC dueDate_))
                     (nullIfEmpty topics_) (nullIfEmpty notes_) editAssignmentId_
                     <$> assignments db))
               (tail engine))
    else (Shown (warning "Error" "Could not update assignment."), idle db (tail engine)).
Proof.
  intros Hid. unfold AssignmentDialog_onSave, bind, ret, transaction, commit, rollback.
  cbn. rewrite bool_decide_eq_false_2 by lia. rewrite exec_run. cbn.
  by destruct (nextOutcome engine).
Qed.

(** X8: saving a course or an assignment either is accepted, or shows
    the "Error" warning of its branch and leaves the store as it was; the
    second happens exactly when the engine does not carry out the
    statement. Either way one statement is run and no transaction stays
    open. *)
Theorem onSave_failure_changes_nothing (db : Db) (engine : list bool) :
  (∀ userId_ semId_ editCourseId_ code_ name_ color_,
     let saved := CourseDialog_onSave userId_ semId_ editCourseId_ code_ name_ color_
                    (idle db engine) in
     snapshot saved.2 = None ∧ outcomes saved.2 = tail engine ∧
     if nextOutcome engine then ∃ courseId, saved.1 = Accepted courseId
     else view saved.2 = db ∧
          saved.1 = Shown (warning "Error"
                             (if bool_decide (editCourseId_ < 0)
                              then "Could not save course."
                              else "Could not update course."))) ∧
  (∀ courseId_ editAssignmentId_ type_ title_ dueDate_ topics_ notes_,
     let saved := AssignmentDialog_onSave courseId_ editAssignmentId_ type_ title_
                    dueDate_ topics_ notes_ (idle db engine) in
     snapshot saved.2 = None ∧ outcomes saved.2 = tail engine ∧
     if nextOutcome engine then ∃ assignmentId, saved.1 = Accepted assignmentId
     else view saved.2 = db ∧
          saved.1 = Shown (warning "Error"
                             (if bool_decide (editAssignmentId_ < 0)
                              then "Could not save assignment."
                              else "Could not update assignment."))).
Proof.
  split.
  - intros userId_ semId_ editCourseId_ code_ name_ color_. cbv zeta.
    case_bool_decide.
    + rewrite CourseDialog_onSave_add_run by done.
      destruct (nextOutcome engine); cbn; eauto.
    + rewrite CourseDialog_onSave_edit_run by lia.
      destruct (nextOutcome engine); cbn; eauto.
  - intros courseId_ editAssignmentId_ type_ title_ dueDate_ topics_ notes_. cbv zeta.
    case_bool_decide.
    + rewrite AssignmentDialog_onSave_add_run by done.
      destruct (nextOutcome engine); cbn; eauto.
    + rewrite AssignmentDialog_onSave_edit_run by lia.
      destruct (nextOutcome engine); cbn; eauto.
Qed.

(** X9: saving an edit of an assignment, when the engine carries out the
    [UPDATE], replaces type, title, due date (in whole seconds), topics and
    notes in every row that carries the id and keeps the row's id and its
    course: the course id of the dialog is not written. The other rows and
    tables stay as they are, and an id that no row carries is accepted
    with the store unchanged. *)
Theorem AssignmentDialog_onSave_edit (courseId_ editAssignmentId_ : Z)
    (type_ title_ : string) (dueDate_ : QDateTime) (topics_ notes_ : string)
    (db : Db) (engine : list bool) :
  0 ≤ editAssignmentId_ → nextOutcome engine = true →
  ∃ db',
    AssignmentDialog_onSave courseId_ editAssignmentId_ type_ title_ dueDate_
      topics_ notes_ (idle db engine)
    = (Accepted editAssignmentId_, idle db' (tail engine)) ∧
    (editAssignmentId_ ∉ a_id <$> assignments db → db' = db) ∧
    length (assignments db') = length (assignments db) ∧
    (∀ i a, assignments db !! i = Some a →
       assignments db' !! i
       = Some (if bool_decide (a_id a = editAssignmentId_)
               then mkAssignmentRow (a_id a) (a_course_id a) type_ title_
                      (msecsSinceEpoch dueDate_ `quot` 1000)
                      (nullIfEmpty topics_) (nullIfEmpty notes_)
               else a)) ∧
    users db' = users db ∧ semesters db' = semesters db ∧ courses db' = courses db.
Proof.
  intros Hid Hok. eexists. split.
  - rewrite AssignmentDialog_onSave_edit_run by done. rewrite Hok. reflexivity.
  - split; [|split; [|split; [|done]]].
    + intros Hno. rewrite updatedAssignment_absent by done. apply withAssignments_same.
    + cbn. by rewrite length_fmap.
    + intros i a Ha. cbn. by rewrite list_lookup_fmap, Ha.
Qed.

(** Editing assignment 1 from a dialog opened for course 9 rewrites its
    fields and leaves it with course 1. *)
Lemma AssignmentDialog_onSave_edit_witness :
  ∃ db',
    AssignmentDialog_onSave 9 1 "Final" "Term paper" (mkQDateTime 1733997600999 LocalTime)
      "ch. 1-4" "" (idle essayFirst [])
    = (Accepted 1, idle db' []) ∧
    assignments db'
    = [mkAssignmentRow 1 1 "Final" "Term paper" 1733997600 (Some "ch. 1-4") None; quiz].
Proof.
  destruct (AssignmentDialog_onSave_edit 9 1 "Final" "Term paper"
              (mkQDateTime 1733997600999 LocalTime) "ch. 1-4" "" essayFirst [])
    as (db' & Hrun & _ & _ & Hrows & _); [lia | reflexivity |].
  exists db'. split; [exact Hrun|].
  injection Hrun as <-. reflexivity.
Defined.

(** ** Well-formed stores *)

Lemma deleteAssignment_run courseId assignId db engine :
  deleteAssignment (Some courseId) (Some assignId) true (idle db engine)
  = (None,
     idle (if nextOutcome engine
           then withAssignments db (filter (λ a, a_id a ≠ assignId) (assignments db))
           else db)
          (tail engine)).
Proof.
  unfold deleteAssignment, bind, ret. rewrite exec_run. cbn.
  by destruct (nextOutcome engine).
Qed.

Lemma keys_ok_nil seq : keys_ok [] seq.
Proof. split; [apply NoDup_nil_2 | constructor]. Qed.

Lemma keys_ok_insert ids seq :
  keys_ok ids seq → keys_ok (ids ++ [next_rowid ids seq]) (next_rowid ids seq).
Proof.
  intros [Hnd Hall]. pose proof (next_rowid_seq ids seq) as [Hseq Hpos]. split.
  - apply NoDup_app. split; [done|]. split; [|apply NoDup_singleton].
    intros i Hi Hnew. apply list_elem_of_singleton in Hnew. subst i.
    by apply next_rowid_not_elem in Hi.
  - apply Forall_app. split.
    + eapply Forall_impl; [exact Hall|]. intros i Hi. cbn in Hi. lia.
    + constructor; [lia|constructor].
Qed.

Lemma keys_ok_filter {A} (f : A → Z) (P : A → Prop) `{∀ x, Decision (P x)}
    (l : list A) seq :
  keys_ok (f <$> l) seq → keys_ok (f <$> filter P l) seq.
Proof.
  intros [Hnd Hall].
  assert (f <$> filter P l `sublist_of` f <$> l) as Hsub
    by apply fmap_sublist, sublist_filter.
  split.
  - by eapply sublist_NoDup.
  - rewrite Forall_forall in *. intros i Hi. apply Hall. by eapply elem_of_sublist.
Qed.

Lemma keys_ok_fmap {A} (f : A → Z) (g : A → A) (l : list A) seq :
  (∀ x, f (g x) = f x) → keys_ok (f <$> l) seq → keys_ok (f <$> (g <$> l)) seq.
Proof.
  intros Hfg. rewrite <- list_fmap_compose.
  by rewrite (list_fmap_ext (f ∘ g) f l) by (intros; apply Hfg).
Qed.

Lemma Forall_filter_keep {A} (Q P : A → Prop) `{∀ x, Decision (P x)} (l : list A) :
  Forall Q l → Forall Q (filter P l).
Proof.
  rewrite !Forall_forall. intros Hall x Hx. apply Hall.
  by apply list_elem_of_filter in Hx as [_ Hx].
Qed.

Lemma well_formed_empty : well_formed emptyDb.
Proof.
  split; cbn; try apply keys_ok_nil; try apply NoDup_nil_2; constructor.
Qed.

Lemma well_formed_aliceFall : well_formed aliceFall.
Proof. well_formed_by_computation. Qed.

Lemma well_formed_oneCourse : well_formed oneCourse.
Proof. well_formed_by_computation. Qed.


Lemma nullIfEmpty_not_empty text : nullIfEmpty text ≠ Some "".
Proof. unfold nullIfEmpty. case_bool_decide; congruence. Qed.

Lemma color_or_default color :
  (if bool_decide (color = "") then defaultColor else color) ≠ "".
Proof. by case_bool_decide. Qed.


Lemma fire_well_formed Sha256 slot db engine :
  well_formed db → well_formed (view (fire Sha256 slot (idle db engine))).
Proof.
  intros Hwf. destruct slot; cbn [fire].
  - by rewrite onLogin_run.
  - rewrite onRegister_run. destruct (nextOutcome engine); [|done]. cbn.
    case_bool_decide as Hname; [done|]. cbn.
    destruct Hwf as [Husers Hsems Hcourses Hassigns Hnames Hterms Hcolors Htexts].
    split; cbn; try done.
    + rewrite fmap_app. by apply keys_ok_insert.
    + rewrite fmap_app. apply NoDup_app. split; [done|]. split; [|apply NoDup_singleton].
      intros x Hx Hnew. apply list_elem_of_singleton in Hnew. by subst x.
  - rewrite SemesterPicker_onOk_run.
    assert (∀ r, well_formed (view (
      if nextOutcome (tail engine) && bool_decide (term_ = "Fall" ∨ term_ = "Spring")
      then (next_rowid (s_id <$> semesters db) (seq_semesters db),
            idle (mkDb (users db)
                    (semesters db ++
                       [mkSemesterRow (next_rowid (s_id <$> semesters db) (seq_semesters db))
                          term_ year_])
                    (courses db) (assignments db)
                    (seq_users db) (next_rowid (s_id <$> semesters db) (seq_semesters db))
                    (seq_courses db) (seq_assignments db)) r)
      else (-1, idle db r)).2)) as Hins.
    { intros r. destruct (nextOutcome (tail engine)); [|done]. cbn.
      case_bool_decide as Hterm; [|done]. cbn.
      destruct Hwf as [Husers Hsems Hcourses Hassigns Hnames Hterms Hcolors Htexts].
      split; cbn; try done.
      - rewrite fmap_app. by apply keys_ok_insert.
      - apply Forall_app. split; [done|]. by constructor. }
    destruct (nextOutcome engine); [|apply Hins].
    destruct (s_id <$> filter _ _); [apply Hins|done].
  - destruct (decide (editCourseId_ < 0)).
    + rewrite CourseDialog_onSave_add_run by done.
      destruct (nextOutcome engine); [|done]. cbn.
      destruct Hwf as [Husers Hsems Hcourses Hassigns Hnames Hterms Hcolors Htexts].
      split; cbn; try done.
      * rewrite fmap_app. by apply keys_ok_insert.
      * apply Forall_app. split; [done|]. constructor; [|constructor].
        apply color_or_default.
    + rewrite CourseDialog_onSave_edit_run by lia.
      destruct (nextOutcome engine); [|done]. cbn.
      destruct Hwf as [Husers Hsems Hcourses Hassigns Hnames Hterms Hcolors Htexts].
      split; cbn; try done.
      * apply keys_ok_fmap; [|done]. intros c. unfold updatedCourse. by case_bool_decide.
      * apply Forall_fmap. eapply Forall_impl; [exact Hcolors|].
        intros c Hc. cbn. unfold updatedCourse. case_bool_decide; [|done].
        apply color_or_default.
  - destruct (decide (editAssignmentId_ < 0)).
    + rewrite AssignmentDialog_onSave_add_run by done.
      destruct (nextOutcome engine); [|done]. cbn.
      destruct Hwf as [Husers Hsems Hcourses Hassigns Hnames Hterms Hcolors Htexts].
      split; cbn; try done.
      * rewrite fmap_app. by apply keys_ok_insert.
      * apply Forall_app. split; [done|]. constructor; [|constructor].
        split; apply nullIfEmpty_not_empty.
    + rewrite AssignmentDialog_onSave_edit_run by lia.
      destruct (nextOutcome engine); [|done]. cbn.
      destruct Hwf as [Husers Hsems Hcourses Hassigns Hnames Hterms Hcolors Htexts].
      split; cbn; try done.
      * apply keys_ok_fmap; [|done]. intros a. unfold updatedAssignment.
        by case_bool_decide.
      * apply Forall_fmap. eapply Forall_impl; [exact Htexts|].
        intros a Ha. cbn. unfold updatedAssignment. case_bool_decide; [|done].
        split; apply nullIfEmpty_not_empty.
  - destruct currentItem as [courseId|]; [|done].
    destruct answerYes; [|done]. rewrite deleteCourse_run. cbn.
    destruct Hwf as [Husers Hsems Hcourses Hassigns Hnames Hterms Hcolors Htexts].
    split; cbn; try done.
    + destruct (nextOutcome (tail engine)); [|done]. by apply keys_ok_filter.
    + destruct (nextOutcome engine); [|done]. by apply keys_ok_filter.
    + destruct (nextOutcome (tail engine)); [|done]. by apply Forall_filter_keep.
    + destruct (nextOutcome engine); [|done]. by apply Forall_filter_keep.
  - destruct currentItem as [courseId|]; [|done].
    destruct currentRow as [assignId|]; [|done].
    destruct answerYes; [|done]. rewrite deleteAssignment_run. cbn.
    destruct (nextOutcome engine); [|done].
    destruct Hwf as [Husers Hsems Hcourses Hassigns Hnames Hterms Hcolors Htexts].
    split; cbn; try done.
    + by apply keys_ok_filter.
    + by apply Forall_filter_keep.
  - by destruct (reloadUpcoming_session userId_ semesterId_ (idle db engine)) as [-> _].
Qed.

Lemma replay_well_formed Sha256 script db :
  well_formed db → well_formed (replay Sha256 script db).
Proof.
  revert db. induction script as [|[slot engine] script IH]; intros db Hwf; [done|].
  cbn. by apply IH, fire_well_formed.
Qed.

(** X10: whatever slots are fired on the freshly migrated database, and
    whatever the engine does to their statements, the store stays well
    formed: in each table the ids are distinct, positive and at most the
    AUTOINCREMENT counter; usernames are distinct; every term is "Fall" or
    "Spring"; no course has an empty color; no assignment has the empty
    string as topics or notes. *)
Theorem store_stays_well_formed (Sha256 : string → QByteArray)
    (script : list (Slot * list bool)) :
  well_formed (replay Sha256 script emptyDb).
Proof. apply replay_well_formed, well_formed_empty. Qed.

(** ** Reading without writing *)

Lemma showLoop_outcomes k pq s :
  outcomes (showLoop k pq s).2 = drop (length (showLoop k pq s).1) (outcomes s).
Proof.
  revert pq s. induction k as [|k IH]; intros pq s; [done|].
  destruct pq as [|a c]; cbn [showLoop pq_empty pq_top head]; [done|].
  unfold bind, ret, select_course_code. rewrite exec_query.
  specialize (IH (pq_pop DueSooner (a :: c))
                 (mkSession (view s) (snapshot s) (tail (outcomes s)))).
  destruct (showLoop k (pq_pop DueSooner (a :: c)) _) as [rest s2].
  cbn in *. rewrite IH. destruct (outcomes s); cbn; [by rewrite drop_nil|done].
Qed.

(** X11: [reloadUpcoming] leaves the store and an open transaction as
    they are, and runs one statement for the query and one more for each
    entry it shows; with no semester picked it runs none, and when the
    query fails the list is empty. *)
Theorem reloadUpcoming_reads_only (userId_ semesterId_ : Z) (s : Session) :
  let reloaded := reloadUpcoming userId_ semesterId_ s in
  view reloaded.2 = view s ∧ snapshot reloaded.2 = snapshot s ∧
  outcomes reloaded.2
  = drop (if bool_decide (semesterId_ < 0) then 0%nat else S (length reloaded.1))
         (outcomes s) ∧
  (nextOutcome (outcomes s) = false → reloaded.1 = []).
Proof.
  cbv zeta. destruct (reloadUpcoming_session userId_ semesterId_ s) as [-> ->].
  split; [done|]. split; [done|]. split.
  - unfold reloadUpcoming. case_bool_decide; [done|].
    unfold bind, select_upcoming. rewrite exec_query.
    rewrite showLoop_outcomes. cbn [outcomes snd fst].
    destruct (outcomes s); cbn; [by rewrite drop_nil|done].
  - intros Hfail. rewrite reloadUpcoming_labels, Hfail. by case_bool_decide.
Qed.

Lemma SemesterPicker_onOk_result term_ year_ db engine :
  well_formed db →
  let picked := SemesterPicker_onOk term_ year_ (idle db engine) in
  snapshot picked.2 = None ∧
  ((0 < picked.1 ∧ mkSemesterRow picked.1 term_ year_ ∈ semesters (view picked.2)) ∨
   (picked.1 = -1 ∧ view picked.2 = db)) ∧
  (nextOutcome (tail engine) = true → term_ = "Fall" ∨ term_ = "Spring" → 0 < picked.1).
Proof.
  intros Hwf. cbv zeta. rewrite SemesterPicker_onOk_run.
  assert (∀ r, r ∈ filter (λ s, semesterKey s = (term_, year_)) (semesters db) →
               0 < s_id r ∧ mkSemesterRow (s_id r) term_ year_ ∈ semesters db) as Hfound.
  { intros r Hr. apply list_elem_of_filter in Hr as [Hkey Hr].
    destruct Hwf as [_ [_ Hids] _ _ _ _ _ _]. rewrite Forall_forall in Hids.
    split; [apply Hids; by apply list_elem_of_fmap_2|].
    destruct r as [i t y]. unfold semesterKey in Hkey. cbn in *. by simplify_eq. }
  pose proof (next_rowid_seq (s_id <$> semesters db) (seq_semesters db)) as [_ Hpos].
  destruct (nextOutcome engine).
  - destruct (filter _ (semesters db)) as [|r rest] eqn:Hf; cbn.
    + destruct (nextOutcome (tail engine)); cbn.
      * case_bool_decide; cbn.
        -- split; [done|]. split; [|done]. left. split; [done|].
           apply elem_of_app. right. left.
        -- split; [done|]. split; [by right|]. done.
      * split; [done|]. split; [by right|]. done.
    + destruct (Hfound r) as [Hr1 Hr2]; [left|]. split; [done|]. split; [by left|done].
  - cbn. destruct (nextOutcome (tail engine)); cbn.
    + case_bool_decide; cbn.
      * split; [done|]. split; [|done]. left. split; [done|].
        apply elem_of_app. right. left.
      * split; [done|]. split; [by right|]. done.
    + split; [done|]. split; [by right|]. done.
Qed.

(** X12: on a well-formed store the semester id the picker ends with is
    either positive, and then a row with that id, the term and the year is
    in the table, or it is [-1], and then the store is as it was; it is
    positive whenever the term is valid and the insert is carried out. So
    the test [sp.semesterId > 0] of [pickSemester] tells a semester that
    was found or created from a failure. *)
Theorem SemesterPicker_onOk_semesterId (term_ : string) (year_ : Z) (db : Db)
    (engine : list bool) :
  well_formed db →
  let picked := SemesterPicker_onOk term_ year_ (idle db engine) in
  snapshot picked.2 = None ∧
  ((0 < picked.1 ∧ mkSemesterRow picked.1 term_ year_ ∈ semesters (view picked.2)) ∨
   (picked.1 = -1 ∧ view picked.2 = db)) ∧
  (nextOutcome (tail engine) = true → term_ = "Fall" ∨ term_ = "Spring" → 0 < picked.1).
Proof. apply SemesterPicker_onOk_result. Qed.

(** A failed lookup of a valid term still ends with a positive id. *)
Lemma SemesterPicker_onOk_semesterId_witness :
  (SemesterPicker_onOk "Fall" 2024 (idle aliceOnly [])).1 = 1 ∧
  (SemesterPicker_onOk "Autumn" 2024 (idle aliceOnly [])).1 = -1 ∧
  0 < (SemesterPicker_onOk "Spring" 2025 (idle aliceFall [false])).1.
Proof.
  split; [reflexivity|]. split; [reflexivity|].
  refine (proj2 (proj2 (SemesterPicker_onOk_semesterId "Spring" 2025 aliceFall [false]
            well_formed_aliceFall)) eq_refl _).
  by right.
Defined.

(** ** The course dialog, opened and saved *)

Lemma filter_key_singleton {A B} `{EqDecision B} (f : A → B) (l : list A) x :
  NoDup (f <$> l) → x ∈ l → filter (λ y, f y = f x) l = [x].
Proof.
  intros Hnd Hx.
  destruct (filter (λ y, f y = f x) l) as [|y rest] eqn:Hf.
  - apply filter_nil_not_elem in Hf. destruct Hf. by apply list_elem_of_fmap_2.
  - pose proof (filter_key_unique f (f x) l y rest Hnd Hf) as ->.
    assert (y ∈ filter (λ y, f y = f x) l) as Hy by (rewrite Hf; left).
    apply list_elem_of_filter in Hy as [Hkey Hy].
    by rewrite (NoDup_fmap_elem_inj f l y x Hnd Hy Hx Hkey).
Qed.


Lemma CourseDialog_CourseDialog_run setText editCourseId_ db engine :
  0 ≤ editCourseId_ →
  CourseDialog_CourseDialog setText editCourseId_ (idle db engine)
  = (match (if nextOutcome engine
            then filter (λ c, c_id c = editCourseId_) (courses db) else []) with
     | c :: _ => mkCourseDialog (setText (c_code c)) (setText (c_name c))
                                (setText (c_color_hex c))
     | [] => mkCourseDialog "" "" ""
     end,
     idle db (tail engine)).
Proof.
  intros Hid. unfold CourseDialog_CourseDialog, bind, ret, select_course.
  rewrite bool_decide_eq_true_2 by done. rewrite exec_query. cbn.
  destruct (nextOutcome engine); [|done].
  by destruct (filter _ (courses db)) as [|c rest].
Qed.

(** X13: when a new course is saved and the engine carries out the
    statements, the id the dialog ends with is positive and new, and the
    edit dialog opened for that id loads the code and the name that were
    entered and the color, or "#4F46E5" when the color field was empty. *)
Theorem CourseDialog_add_then_load (setText : string → string) (userId_ semId_ : Z)
    (code_ name_ color_ : string) (db : Db) (engine : list bool) :
  nextOutcome engine = true → nextOutcome (tail engine) = true →
  let saved := CourseDialog_onSave userId_ semId_ (-1) code_ name_ color_
                 (idle db engine) in
  ∃ courseId,
    saved.1 = Accepted courseId ∧ 0 < courseId ∧ (courseId ∉ c_id <$> courses db) ∧
    (CourseDialog_CourseDialog setText courseId saved.2).1
    = mkCourseDialog (setText code_) (setText name_)
        (setText (if bool_decide (color_ = "") then "#4F46E5" else color_)).
Proof.
  intros H1 H2. cbv zeta. rewrite CourseDialog_onSave_add_run by lia. rewrite H1.
  pose proof (next_rowid_seq (c_id <$> courses db) (seq_courses db)) as [_ Hpos].
  pose proof (next_rowid_not_elem (c_id <$> courses db) (seq_courses db)) as Hnew.
  eexists. split; [reflexivity|]. split; [done|]. split; [done|].
  cbn [fst snd].
  rewrite CourseDialog_CourseDialog_run by (cbn; lia). cbn [fst snd].
  rewrite H2. cbn [courses]. rewrite filter_app.
  rewrite (proj2 (filter_nil_not_elem c_id _ (courses db))) by done.
  rewrite (filter_cons _ (mkCourseRow _ _ _ _ _ _)). cbn.
  by rewrite decide_True.
Qed.

(** CS101 saved without a color is loaded with the default color. *)
Lemma CourseDialog_add_then_load_witness :
  ∃ courseId,
    (CourseDialog_onSave 1 1 (-1) "CS101" "Intro" "" (idle aliceFall [])).1
    = Accepted courseId ∧ 0 < courseId ∧ (courseId ∉ c_id <$> courses aliceFall) ∧
    (CourseDialog_CourseDialog (λ text, text) courseId
       (CourseDialog_onSave 1 1 (-1) "CS101" "Intro" "" (idle aliceFall [])).2).1
    = mkCourseDialog "CS101" "Intro" "#4F46E5".
Proof.
  exact (CourseDialog_add_then_load (λ text, text) 1 1 "CS101" "Intro" "" aliceFall []
           eq_refl eq_refl).
Defined.



(** ** The assignment dialog, opened and saved *)






(** ** The course list and the assignment table *)

Lemma code_le_trans : Transitive code_le.
Proof. intros a b c. unfold code_le. apply transitivity. Qed.

Lemma code_le_total : Total code_le.
Proof. intros a b. unfold code_le. apply total, _. Qed.

Lemma due_le_trans : Transitive due_le.
Proof. intros a b c. unfold due_le. lia. Qed.

Lemma due_le_total : Total due_le.
Proof. intros a b. unfold due_le. lia. Qed.

Lemma loadCourses_run userId_ semesterId_ s :
  loadCourses userId_ semesterId_ s
  = if bool_decide (semesterId_ < 0) then ([], s)
    else (courseItem <$>
            (if nextOutcome (outcomes s)
             then order_by code_le
                    (filter (λ c, c_user_id c = userId_ ∧ c_semester_id c = semesterId_)
                       (courses (view s)))
             else []),
          mkSession (view s) (snapshot s) (tail (outcomes s))).
Proof.
  unfold loadCourses. case_bool_decide; [done|].
  unfold bind, ret, select_courses_of. rewrite exec_query.
  by destruct (nextOutcome (outcomes s)).
Qed.

Lemma loadAssignments_run formatLocal courseId s :
  loadAssignments formatLocal (Some courseId) s
  = (tableRow formatLocal <$>
       (if nextOutcome (outcomes s)
        then order_by due_le
               (filter (λ a, a_course_id a = courseId) (assignments (view s)))
        else []),
     mkSession (view s) (snapshot s) (tail (outcomes s))).
Proof.
  unfold loadAssignments, bind, ret, select_assignments_of. rewrite exec_query.
  by destruct (nextOutcome (outcomes s)).
Qed.

(** X16: [loadCourses] leaves the store as it is and lists, labelled
    "code — name" and holding their ids, exactly the courses of the user
    in the semester, each once, in ascending order of their codes; the
    list is empty when no semester is picked or the query fails. *)
Theorem loadCourses_lists_the_scope (userId_ semesterId_ : Z) (s : Session) :
  let loaded := loadCourses userId_ semesterId_ s in
  view loaded.2 = view s ∧ snapshot loaded.2 = snapshot s ∧
  ∃ rows,
    loaded.1 = (λ c, mkQListWidgetItem (c_code c +:+ " — " +:+ c_name c) (c_id c)) <$> rows ∧
    StronglySorted (λ a b, String.le (c_code a) (c_code b)) rows ∧
    rows ≡ₚ (if bool_decide (semesterId_ < 0) || negb (nextOutcome (outcomes s)) then []
             else filter (λ c, c_user_id c = userId_ ∧ c_semester_id c = semesterId_)
                         (courses (view s))).
Proof.
  cbv zeta. rewrite loadCourses_run. case_bool_decide; cbn.
  - split; [done|]. split; [done|]. exists []. split; [done|]. split; [constructor|done].
  - split; [done|]. split; [done|].
    destruct (nextOutcome (outcomes s)); cbn.
    + eexists. split; [reflexivity|]. split.
      * apply (StronglySorted_order_by code_le _ code_le_trans code_le_total).
      * apply order_by_Permutation.
    + exists []. split; [done|]. split; [constructor|done].
Qed.

(** X17: [loadAssignments] leaves the store as it is and fills the table
    with exactly the assignments of the selected course, each once, in
    ascending order of their due dates and with no limit on their number;
    the table is empty when no course is selected or the query fails. *)
Theorem loadAssignments_lists_the_course (formatLocal : QDateTime → string)
    (currentItem : option Z) (s : Session) :
  let loaded := loadAssignments formatLocal currentItem s in
  view loaded.2 = view s ∧ snapshot loaded.2 = snapshot s ∧
  ∃ rows,
    loaded.1
    = (λ r, mkTableRow (a_id r) (a_type r) (a_title r)
              (formatLocal (mkQDateTime (a_due_at_utc r * 1000) LocalTime))
              (default "" (a_topics r))) <$> rows ∧
    StronglySorted (λ a b, a_due_at_utc a ≤ a_due_at_utc b) rows ∧
    rows ≡ₚ match currentItem with
            | Some courseId =>
                if nextOutcome (outcomes s)
                then filter (λ a, a_course_id a = courseId) (assignments (view s))
                else []
            | None => []
            end.
Proof.
  cbv zeta. destruct currentItem as [courseId|].
  - rewrite loadAssignments_run. cbn. split; [done|]. split; [done|].
    destruct (nextOutcome (outcomes s)); cbn.
    + eexists. split; [reflexivity|]. split.
      * apply (StronglySorted_order_by due_le _ due_le_trans due_le_total).
      * apply order_by_Permutation.
    + exists []. split; [done|]. split; [constructor|done].
  - cbn. split; [done|]. split; [done|].
    exists []. split; [done|]. split; [constructor|done].
Qed.

Lemma loadAssignments_elem formatLocal currentItem s row :
  row ∈ (loadAssignments formatLocal currentItem s).1 →
  ∃ r, r ∈ assignments (view s) ∧ row = tableRow formatLocal r ∧
       currentItem = Some (a_course_id r).
Proof.
  destruct currentItem as [courseId|]; [|by intros ?%elem_of_nil].
  rewrite loadAssignments_run. cbn. intros Hrow.
  apply list_elem_of_fmap in Hrow as (r & -> & Hr).
  destruct (nextOutcome (outcomes s)); [|by apply elem_of_nil in Hr].
  rewrite order_by_Permutation in Hr.
  apply list_elem_of_filter in Hr as [<- Hr]. by exists r.
Qed.

(** X18: a confirmed [deleteAssignment] opens no transaction and reports
    nothing, whatever happens to its statement. When the statement fails
    the store is as it was; when it is carried out, the rows with the id
    are gone from [assignments], the other rows and tables stay, and
    neither the assignment table nor the Upcoming list shows the id
    again. *)
Theorem deleteAssignment_removes (formatLocal : QDateTime → string)
    (courseId assignId : Z) (db : Db) (engine : list bool) :
  let deleted := deleteAssignment (Some courseId) (Some assignId) true (idle db engine) in
  deleted.1 = None ∧ snapshot deleted.2 = None ∧ outcomes deleted.2 = tail engine ∧
  (nextOutcome engine = false → view deleted.2 = db) ∧
  (nextOutcome engine = true →
   assignments (view deleted.2) = filter (λ a, a_id a ≠ assignId) (assignments db) ∧
   users (view deleted.2) = users db ∧ semesters (view deleted.2) = semesters db ∧
   courses (view deleted.2) = courses db ∧
   (∀ currentItem row,
      row ∈ (loadAssignments formatLocal currentItem deleted.2).1 →
      tr_data row ≠ assignId) ∧
   (∀ userId_ semesterId_ it,
      it ∈ (reloadUpcoming userId_ semesterId_ deleted.2).1 →
      id (shown_assignment it) ≠ assignId)).
Proof.
  cbv zeta. rewrite deleteAssignment_run. cbn.
  split; [done|]. split; [done|]. split; [done|].
  split; [by intros ->|]. intros ->. cbn.
  split; [done|]. split; [done|]. split; [done|]. split; [done|]. split.
  - intros currentItem row Hrow.
    apply loadAssignments_elem in Hrow as (r & Hr & -> & _). cbn in *.
    by apply list_elem_of_filter in Hr as [Hne _].
  - intros userId_ semesterId_ it Hit.
    apply reloadUpcoming_elem in Hit as (r & c & Hr & -> & _). cbn in *.
    by apply list_elem_of_filter in Hr as [Hne _].
Qed.

(** ** The term and year controls *)






(** ** A new assignment in the lists *)

Lemma reloadUpcoming_shows_all userId_ semesterId_ s :
  0 ≤ semesterId_ → nextOutcome (outcomes s) = true →
  (length (upcoming_join semesterId_ userId_ (view s)) ≤ 10)%nat →
  shown_assignment <$> (reloadUpcoming userId_ semesterId_ s).1
  ≡ₚ fetchAssignment <$> upcoming_join semesterId_ userId_ (view s).
Proof.
  intros Hsem Hok Hlen. rewrite reloadUpcoming_labels.
  rewrite bool_decide_eq_false_2 by lia. rewrite Hok, labelAll_assignments.
  rewrite popLoop_all.
  - rewrite pushAll_perm. by rewrite order_by_Permutation.
  - apply pushAll_heap.
  - rewrite pushAll_perm, length_fmap, order_by_Permutation. done.
Qed.

Lemma upcoming_join_intro semesterId userId db r c :
  r ∈ assignments db → c ∈ courses db → a_course_id r = c_id c →
  c_semester_id c = semesterId → c_user_id c = userId →
  r ∈ upcoming_join semesterId userId db.
Proof.
  intros Hr Hc Hid Hsem Huser. unfold upcoming_join.
  apply list_elem_of_bind. exists r. split; [|done].
  apply list_elem_of_bind. exists c. split; [|done].
  rewrite bool_decide_eq_true_2 by done. left.
Qed.

Lemma Forall_true_nextOutcome engine :
  Forall (λ ok, ok = true) engine →
  nextOutcome engine = true ∧ Forall (λ ok, ok = true) (tail engine).
Proof. intros Hall. destruct Hall as [|ok rest Hok Hrest]; [by split|]. by split. Qed.

Lemma labelAll_carried_out cs engine popped a c :
  Forall (λ ok, ok = true) engine → NoDup (c_id <$> cs) →
  a ∈ popped → c ∈ cs → c_id c = courseId a →
  mkUpcomingItem a (c_code c) ∈ labelAll cs engine popped.
Proof.
  intros Hall Hnd Ha Hc Hid. revert engine Hall.
  induction popped as [|b rest IH]; intros engine Hall; [by apply elem_of_nil in Ha|].
  apply Forall_true_nextOutcome in Hall as [Hok Hall]. cbn [labelAll]. rewrite Hok.
  apply elem_of_cons in Ha as [<-|Ha]; [|right; by apply IH].
  rewrite <- Hid, (filter_key_singleton c_id cs c) by done. left.
Qed.

(** X20: when a new assignment is saved and the statements that follow
    are carried out, the new row is appended under a new id, the table of
    its course shows it, and, when its course is in the scope, the scope
    has at most ten assignments and the type is an entry of the type box,
    the Upcoming list holds its label: type, course code, title and due
    date as entered (the date in whole seconds), followed by the topics
    when there are any. *)
Theorem AssignmentDialog_add_then_lists (formatLocal : QDateTime → string)
    (courseId_ : Z) (type_ title_ : string) (dueDate_ : QDateTime)
    (topics_ notes_ : string) (db : Db) (engine : list bool) :
  nextOutcome engine = true → Forall (λ ok, ok = true) (tail engine) →
  let saved := AssignmentDialog_onSave courseId_ (-1) type_ title_ dueDate_
                 topics_ notes_ (idle db engine) in
  let seconds := msecsSinceEpoch dueDate_ `quot` 1000 in
  ∃ assignmentId,
    saved.1 = Accepted assignmentId ∧
    (assignmentId ∉ a_id <$> assignments db) ∧
    assignments (view saved.2)
    = assignments db ++
        [mkAssignmentRow assignmentId courseId_ type_ title_ seconds
           (nullIfEmpty topics_) (nullIfEmpty notes_)] ∧
    mkTableRow assignmentId type_ title_
      (formatLocal (mkQDateTime (seconds * 1000) LocalTime)) topics_
    ∈ (loadAssignments formatLocal (Some courseId_) saved.2).1 ∧
    (∀ userId_ semesterId_ c,
       well_formed db → c ∈ courses db → c_id c = courseId_ →
       c_user_id c = userId_ → c_semester_id c = semesterId_ → 0 ≤ semesterId_ →
       (length (upcoming_join semesterId_ userId_ (view saved.2)) ≤ 10)%nat →
       type_ ∈ typeItems →
       let text := "[" +:+ type_ +:+ "] " +:+ c_code c +:+ " — " +:+ title_ +:+ " (" +:+
                   formatLocal (mkQDateTime (seconds * 1000) LocalTime) +:+ ")" in
       (if bool_decide (topics_ = "") then text else text +:+ "  •  " +:+ topics_)
       ∈ itemText formatLocal <$> (reloadUpcoming userId_ semesterId_ saved.2).1).
Proof.
  intros H1 Hall. cbv zeta. rewrite AssignmentDialog_onSave_add_run by lia. rewrite H1.
  cbn [fst snd].
  pose proof (Forall_true_nextOutcome _ Hall) as [H2 Hall'].
  set (rowid := next_rowid (a_id <$> assignments db) (seq_assignments db)).
  set (row := mkAssignmentRow rowid courseId_ type_ title_
                (toSecsSinceEpoch (toUTC dueDate_)) (nullIfEmpty topics_)
                (nullIfEmpty notes_)).
  exists rowid. split; [done|]. split; [apply next_rowid_not_elem|]. split; [done|].
  split.
  - rewrite loadAssignments_run. cbn [fst outcomes idle view assignments]. rewrite H2.
    assert (row ∈ order_by due_le
                    (filter (λ a, a_course_id a = courseId_) (assignments db ++ [row])))
      as Hrow.
    { rewrite order_by_Permutation. apply list_elem_of_filter. split; [done|].
      apply elem_of_app. right. left. }
    apply (list_elem_of_fmap_2 (tableRow formatLocal)) in Hrow.
    replace (tableRow formatLocal row) with
      (mkTableRow rowid type_ title_
         (formatLocal (mkQDateTime (msecsSinceEpoch dueDate_ `quot` 1000 * 1000) LocalTime))
         topics_) in Hrow; [exact Hrow|].
    unfold tableRow, row, nullIfEmpty. cbn. by case_bool_decide; subst.
  - intros userId_ semesterId_ c Hwf Hc Hid Huser Hsem Hpos Hlen Htype.
    match goal with
    | |- context [reloadUpcoming _ _ ?s] => set (after := s) in *
    end.
    assert (mkUpcomingItem (fetchAssignment row) (c_code c)
            ∈ (reloadUpcoming userId_ semesterId_ after).1) as Hitem.
    { rewrite reloadUpcoming_labels. rewrite bool_decide_eq_false_2 by lia.
      cbn [outcomes view after idle courses]. rewrite H2.
      apply labelAll_carried_out; [done|by destruct Hwf as [_ _ [? _] _ _ _ _ _]| |done|done].
      rewrite popLoop_all.
      - rewrite pushAll_perm. apply list_elem_of_fmap_2. rewrite order_by_Permutation.
        apply (upcoming_join_intro _ _ _ row c); try done.
        cbn. apply elem_of_app. right. left.
      - apply pushAll_heap.
      - rewrite pushAll_perm, length_fmap, order_by_Permutation. exact Hlen. }
    apply (list_elem_of_fmap_2 (itemText formatLocal)) in Hitem.
    replace (itemText formatLocal (mkUpcomingItem (fetchAssignment row) (c_code c)))
      with (if bool_decide (topics_ = "")
            then "[" +:+ type_ +:+ "] " +:+ c_code c +:+ " — " +:+ title_ +:+ " (" +:+
                 formatLocal (mkQDateTime (msecsSinceEpoch dueDate_ `quot` 1000 * 1000)
                                LocalTime) +:+ ")"
            else ("[" +:+ type_ +:+ "] " +:+ c_code c +:+ " — " +:+ title_ +:+ " (" +:+
                  formatLocal (mkQDateTime (msecsSinceEpoch dueDate_ `quot` 1000 * 1000)
                                 LocalTime) +:+ ")") +:+ "  •  " +:+ topics_) in Hitem;
      [exact Hitem|].
    unfold itemText. cbn [shown_assignment shown_code fetchAssignment row type title
      dueAtUtc topics a_type a_title a_due_at_utc a_topics].
    rewrite (toString_parseAssignType type_ Htype). unfold nullIfEmpty.
    case_bool_decide as Hempty; [done|]. by rewrite bool_decide_eq_false_2.
Qed.

(** An essay added to CS101 appears in the table and in Upcoming. *)
Lemma AssignmentDialog_add_then_lists_witness :
  let saved := AssignmentDialog_onSave 1 (-1) "Essay" "Reading response" tenOClock
                 "week 4" "" (idle oneCourse []) in
  saved.1 = Accepted 1 ∧
  (tr_data <$> (loadAssignments (λ _, "10/1/24 10:00 AM") (Some 1) saved.2).1) = [1] ∧
  "[Essay] CS101 — Reading response (10/1/24 10:00 AM)  •  week 4"
  ∈ itemText (λ _, "10/1/24 10:00 AM") <$> (reloadUpcoming 1 1 saved.2).1.
Proof.
  cbv zeta. split; [reflexivity|]. split; [reflexivity|].
  destruct (AssignmentDialog_add_then_lists (λ _, "10/1/24 10:00 AM") 1 "Essay"
              "Reading response" tenOClock "week 4" "" oneCourse [] eq_refl
              (Forall_nil_2 _))
    as (assignmentId & Hsaved & _ & _ & _ & Hshown).
  apply (Hshown 1 1 cs101); try reflexivity;
    [apply well_formed_oneCourse | left | lia | vm_compute; lia |].
  unfold typeItems. do 5 right. left.
Defined.

(** ** A new course in the list; the migrations *)

Lemma loadCourses_elem userId_ semesterId_ s item :
  item ∈ (loadCourses userId_ semesterId_ s).1 →
  ∃ c, c ∈ courses (view s) ∧ item = courseItem c ∧
       c_user_id c = userId_ ∧ c_semester_id c = semesterId_.
Proof.
  rewrite loadCourses_run. case_bool_decide; [by intros ?%elem_of_nil|].
  cbn. intros Hitem. apply list_elem_of_fmap in Hitem as (c & -> & Hc).
  destruct (nextOutcome (outcomes s)); [|by apply elem_of_nil in Hc].
  rewrite order_by_Permutation in Hc.
  apply list_elem_of_filter in Hc as [[Hu Hs] Hc]. by exists c.
Qed.

(** X21: when a new course is saved and the statements are carried out,
    the course list of its user and semester shows it as "code — name"
    with its id, and the list of no other user or semester holds an entry
    with that id. *)
Theorem CourseDialog_add_then_listed (userId_ semId_ : Z) (code_ name_ color_ : string)
    (db : Db) (engine : list bool) :
  nextOutcome engine = true → nextOutcome (tail engine) = true →
  let saved := CourseDialog_onSave userId_ semId_ (-1) code_ name_ color_
                 (idle db engine) in
  ∃ courseId,
    saved.1 = Accepted courseId ∧
    (0 ≤ semId_ →
     mkQListWidgetItem (code_ +:+ " — " +:+ name_) courseId
     ∈ (loadCourses userId_ semId_ saved.2).1) ∧
    (∀ otherUser otherSemester item,
       item ∈ (loadCourses otherUser otherSemester saved.2).1 →
       lw_data item = courseId → otherUser = userId_ ∧ otherSemester = semId_).
Proof.
  intros H1 H2. cbv zeta. rewrite CourseDialog_onSave_add_run by lia. rewrite H1.
  cbn [fst snd].
  set (rowid := next_rowid (c_id <$> courses db) (seq_courses db)).
  pose proof (next_rowid_not_elem (c_id <$> courses db) (seq_courses db)) as Hnew.
  fold rowid in Hnew.
  set (row := mkCourseRow rowid userId_ semId_ code_ name_
                (if bool_decide (color_ = "") then defaultColor else color_)).
  exists rowid. split; [done|]. split.
  - intros Hsem. rewrite loadCourses_run. rewrite bool_decide_eq_false_2 by lia.
    cbn [fst outcomes idle view courses]. rewrite H2.
    change (mkQListWidgetItem (code_ +:+ " — " +:+ name_) rowid) with (courseItem row).
    apply list_elem_of_fmap_2. rewrite order_by_Permutation.
    apply list_elem_of_filter. split; [done|]. apply elem_of_app. right. left.
  - intros otherUser otherSemester item Hitem Hdata.
    apply loadCourses_elem in Hitem as (c & Hc & -> & Hu & Hs). cbn in Hc, Hdata.
    apply elem_of_app in Hc as [Hc|Hc].
    + destruct Hnew. rewrite <- Hdata. by apply list_elem_of_fmap_2.
    + apply list_elem_of_singleton in Hc. subst c. by cbn in *.
Qed.

(** CS101 is listed for user 1 and not for user 2. *)
Lemma CourseDialog_add_then_listed_witness :
  let saved := CourseDialog_onSave 1 1 (-1) "CS101" "Intro" "" (idle aliceFall []) in
  saved.1 = Accepted 1 ∧
  (loadCourses 1 1 saved.2).1 = [mkQListWidgetItem "CS101 — Intro" 1] ∧
  (loadCourses 2 1 saved.2).1 = [] ∧
  ∃ courseId,
    saved.1 = Accepted courseId ∧
    mkQListWidgetItem ("CS101" +:+ " — " +:+ "Intro") courseId
    ∈ (loadCourses 1 1 saved.2).1.
Proof.
  cbv zeta. split; [reflexivity|]. split; [reflexivity|]. split; [reflexivity|].
  destruct (CourseDialog_add_then_listed 1 1 "CS101" "Intro" "" aliceFall []
              eq_refl eq_refl) as (courseId & Hsaved & Hlisted & _).
  exists courseId. split; [exact Hsaved|]. apply Hlisted. lia.
Defined.

Lemma create_table_if_not_exists_default {Row} (table : option (list Row)) :
  create_table_if_not_exists table = Some (default [] table).
Proof. by destruct table. Qed.

(** X22: [runMigrations] returns [true] exactly when its four statements
    are carried out, and then all four tables exist.  At the first
    statement that fails it returns [false] at once: the tables of the
    statements before it exist, and the table of the failing statement and
    of every statement after it is as the file had it, so a table that was
    missing is not created.  A table that existed before keeps its rows in
    every case.  On a migrated file it changes nothing, whatever the
    outcomes, and on a fresh file it gives the empty store. *)
Theorem runMigrations_keeps_tables (file : DbFile) (engine : list bool) :
  let migrated := runMigrations file engine in
  let created {Row} (table : option (list Row)) := Some (default [] table) in
  (migrated.1 = true ↔
   nextOutcome engine = true ∧ nextOutcome (tail engine) = true ∧
   nextOutcome (tail (tail engine)) = true ∧
   nextOutcome (tail (tail (tail engine))) = true) ∧
  (migrated.1 = true →
   migrated.2 = mkDbFile (created (t_users file)) (created (t_semesters file))
                         (created (t_courses file)) (created (t_assignments file))) ∧
  (nextOutcome engine = false → migrated = (false, file)) ∧
  (nextOutcome engine = true → nextOutcome (tail engine) = false →
   migrated = (false, mkDbFile (created (t_users file)) (t_semesters file)
                               (t_courses file) (t_assignments file))) ∧
  (nextOutcome engine = true → nextOutcome (tail engine) = true →
   nextOutcome (tail (tail engine)) = false →
   migrated = (false, mkDbFile (created (t_users file)) (created (t_semesters file))
                               (t_courses file) (t_assignments file))) ∧
  (nextOutcome engine = true → nextOutcome (tail engine) = true →
   nextOutcome (tail (tail engine)) = true →
   nextOutcome (tail (tail (tail engine))) = false →
   migrated = (false, mkDbFile (created (t_users file)) (created (t_semesters file))
                               (created (t_courses file)) (t_assignments file))) ∧
  (∀ rows, t_users file = Some rows → t_users migrated.2 = Some rows) ∧
  (∀ rows, t_semesters file = Some rows → t_semesters migrated.2 = Some rows) ∧
  (∀ rows, t_courses file = Some rows → t_courses migrated.2 = Some rows) ∧
  (∀ rows, t_assignments file = Some rows → t_assignments migrated.2 = Some rows) ∧
  (∀ db, (runMigrations (tables db) engine).2 = tables db) ∧
  runMigrations freshFile [] = (true, tables emptyDb).
Proof.
  cbv zeta. unfold runMigrations. rewrite !create_table_if_not_exists_default.
  destruct file as [u s c a]. cbn [t_users t_semesters t_courses t_assignments].
  split; [|split; [|split; [|split; [|split; [|split; [|split; [|split;
    [|split; [|split; [|split]]]]]]]]]].
  - destruct (nextOutcome engine), (nextOutcome (tail engine)),
      (nextOutcome (tail (tail engine))), (nextOutcome (tail (tail (tail engine))));
      cbn; split; try done; by intros (? & ? & ? & ?).
  - destruct (nextOutcome engine), (nextOutcome (tail engine)),
      (nextOutcome (tail (tail engine))), (nextOutcome (tail (tail (tail engine))));
      cbn; done.
  - by intros ->.
  - by intros -> ->.
  - by intros -> -> ->.
  - by intros -> -> -> ->.
  - intros rows ->.
    destruct (nextOutcome engine), (nextOutcome (tail engine)),
      (nextOutcome (tail (tail engine))), (nextOutcome (tail (tail (tail engine))));
      done.
  - intros rows ->.
    destruct (nextOutcome engine), (nextOutcome (tail engine)),
      (nextOutcome (tail (tail engine))), (nextOutcome (tail (tail (tail engine))));
      done.
  - intros rows ->.
    destruct (nextOutcome engine), (nextOutcome (tail engine)),
      (nextOutcome (tail (tail engine))), (nextOutcome (tail (tail (tail engine))));
      done.
  - intros rows ->.
    destruct (nextOutcome engine), (nextOutcome (tail engine)),
      (nextOutcome (tail (tail engine))), (nextOutcome (tail (tail (tail engine))));
      done.
  - intros db. unfold tables. rewrite !create_table_if_not_exists_default.
    by destruct (nextOutcome engine), (nextOutcome (tail engine)),
      (nextOutcome (tail (tail engine))), (nextOutcome (tail (tail (tail engine)))).
  - reflexivity.
Qed.

(** ** Tables that only grow *)

Lemma fire_users_semesters Sha256 slot db engine :
  users db `prefix_of` users (view (fire Sha256 slot (idle db engine))) ∧
  semesters db `prefix_of` semesters (view (fire Sha256 slot (idle db engine))).
Proof.
  destruct slot; cbn [fire].
  - by rewrite onLogin_run.
  - rewrite onRegister_run. destruct (_ && _); cbn; [|done].
    split; [by apply prefix_app_r|done].
  - rewrite SemesterPicker_onOk_run.
    assert (∀ r, users db `prefix_of` users (view (
      if nextOutcome (tail engine) && bool_decide (term_ = "Fall" ∨ term_ = "Spring")
      then (next_rowid (s_id <$> semesters db) (seq_semesters db),
            idle (mkDb (users db)
                    (semesters db ++
                       [mkSemesterRow (next_rowid (s_id <$> semesters db) (seq_semesters db))
                          term_ year_])
                    (courses db) (assignments db)
                    (seq_users db) (next_rowid (s_id <$> semesters db) (seq_semesters db))
                    (seq_courses db) (seq_assignments db)) r)
      else (-1, idle db r)).2) ∧
      semesters db `prefix_of` semesters (view (
      if nextOutcome (tail engine) && bool_decide (term_ = "Fall" ∨ term_ = "Spring")
      then (next_rowid (s_id <$> semesters db) (seq_semesters db),
            idle (mkDb (users db)
                    (semesters db ++
                       [mkSemesterRow (next_rowid (s_id <$> semesters db) (seq_semesters db))
                          term_ year_])
                    (courses db) (assignments db)
                    (seq_users db) (next_rowid (s_id <$> semesters db) (seq_semesters db))
                    (seq_courses db) (seq_assignments db)) r)
      else (-1, idle db r)).2)) as Hins.
    { intros r. destruct (_ && _); cbn; [|done]. split; [done|by apply prefix_app_r]. }
    destruct (nextOutcome engine); [|apply Hins].
    destruct (s_id <$> filter _ _); [apply Hins|done].
  - destruct (decide (editCourseId_ < 0)).
    + rewrite CourseDialog_onSave_add_run by done. by destruct (nextOutcome engine).
    + rewrite CourseDialog_onSave_edit_run by lia. by destruct (nextOutcome engine).
  - destruct (decide (editAssignmentId_ < 0)).
    + rewrite AssignmentDialog_onSave_add_run by done. by destruct (nextOutcome engine).
    + rewrite AssignmentDialog_onSave_edit_run by lia. by destruct (nextOutcome engine).
  - destruct currentItem as [courseId|]; [|done].
    destruct answerYes; [|done]. by rewrite deleteCourse_run.
  - destruct currentItem as [courseId|]; [|done].
    destruct currentRow as [assignId|]; [|done].
    destruct answerYes; [|done]. rewrite deleteAssignment_run.
    by destruct (nextOutcome engine).
  - by destruct (reloadUpcoming_session userId_ semesterId_ (idle db engine)) as [-> _].
Qed.

(** X23: no slot removes or rewrites a user or a semester: through any
    run of the program, under any outcomes, the rows the two tables held
    stay where they are and new rows are added behind them. *)
Theorem users_and_semesters_only_grow (Sha256 : string → QByteArray)
    (script : list (Slot * list bool)) (db : Db) :
  users db `prefix_of` users (replay Sha256 script db) ∧
  semesters db `prefix_of` semesters (replay Sha256 script db).
Proof.
  revert db. induction script as [|[slot engine] script IH]; intros db; [done|].
  cbn. destruct (fire_users_semesters Sha256 slot db engine) as [Hu Hs].
  destruct (IH (view (fire Sha256 slot (idle db engine)))) as [Hu' Hs'].
  split; by etrans.
Qed.

(** ** The lists after a course was deleted *)

(** X24: after a [deleteCourse] whose two statements were carried out,
    no course list holds the course, its assignment table is empty, no
    Upcoming list shows an assignment of it, and every other course is
    still listed in its scope. *)
Theorem deleteCourse_then_lists (formatLocal : QDateTime → string) (deleted : Z)
    (db : Db) (engine : list bool) :
  let after := (deleteCourse (Some deleted) true (idle db (true :: true :: engine))).2 in
  (∀ userId_ semesterId_ item,
     item ∈ (loadCourses userId_ semesterId_ after).1 → lw_data item ≠ deleted) ∧
  (loadAssignments formatLocal (Some deleted) after).1 = [] ∧
  (∀ userId_ semesterId_ it,
     it ∈ (reloadUpcoming userId_ semesterId_ after).1 →
     courseId (shown_assignment it) ≠ deleted) ∧
  (∀ userId_ semesterId_ c,
     c ∈ courses db → c_id c ≠ deleted →
     c_user_id c = userId_ → c_semester_id c = semesterId_ → 0 ≤ semesterId_ →
     nextOutcome engine = true →
     mkQListWidgetItem (c_code c +:+ " — " +:+ c_name c) (c_id c)
     ∈ (loadCourses userId_ semesterId_ after).1).
Proof.
  cbv zeta. rewrite deleteCourse_run. cbn [snd nextOutcome hd tail afterDeleteCourse].
  split; [|split; [|split]].
  - intros userId_ semesterId_ item Hitem.
    apply loadCourses_elem in Hitem as (c & Hc & -> & _). cbn in *.
    by apply list_elem_of_filter in Hc as [Hne _].
  - rewrite loadAssignments_run. cbn [fst outcomes view idle assignments].
    destruct (nextOutcome engine); [|done].
    rewrite (proj2 (filter_nil_not_elem a_course_id deleted _)); [done|].
    intros Hin. apply list_elem_of_fmap in Hin as (r & Hid & Hr).
    by apply list_elem_of_filter in Hr as [Hne _].
  - intros userId_ semesterId_ it Hit.
    apply reloadUpcoming_elem in Hit as (r & c & Hr & -> & _). cbn in *.
    by apply list_elem_of_filter in Hr as [Hne _].
  - intros userId_ semesterId_ c Hc Hne Hu Hs Hsem Hok.
    rewrite loadCourses_run. rewrite bool_decide_eq_false_2 by lia.
    cbn [fst outcomes view idle courses]. rewrite Hok.
    change (mkQListWidgetItem (c_code c +:+ " — " +:+ c_name c) (c_id c))
      with (courseItem c).
    apply list_elem_of_fmap_2. rewrite order_by_Permutation.
    apply list_elem_of_filter. split; [done|]. by apply list_elem_of_filter.
Qed.

(** ** References between the tables *)

Lemma Forall_elem_of_grow {A} (f : A → Z) (l : list A) (ids more : list Z) :
  Forall (λ x, f x ∈ ids) l → Forall (λ x, f x ∈ ids ++ more) l.
Proof.
  intros Hall. eapply Forall_impl; [exact Hall|]. intros x Hx. cbn in *.
  apply elem_of_app. by left.
Qed.

(** X25: the references that the DDL declares as foreign keys, and that
    SQLite is not asked to enforce, are kept by every slot under every
    outcome of its statements, as long as a dialog that adds a course is
    opened for a user and a semester of the store, a dialog that adds an
    assignment for a course of the store, and [deleteCourse] does not
    fail to delete the assignments. *)
Theorem references_kept (Sha256 : string → QByteArray) (slot : Slot) (db : Db)
    (engine : list bool) :
  references_ok db → opened_from_store db slot →
  ¬ fails_to_delete_assignments slot engine →
  references_ok (view (fire Sha256 slot (idle db engine))).
Proof.
  intros Href Hopen Hdel. destruct slot; cbn [fire opened_from_store] in *.
  - by rewrite onLogin_run.
  - rewrite onRegister_run. destruct (_ && _); cbn; [|done].
    destruct Href as [Hc Hu Hs]. split; cbn; try done.
    rewrite fmap_app. by apply Forall_elem_of_grow.
  - rewrite SemesterPicker_onOk_run.
    assert (∀ r, references_ok (view (
      if nextOutcome (tail engine) && bool_decide (term_ = "Fall" ∨ term_ = "Spring")
      then (next_rowid (s_id <$> semesters db) (seq_semesters db),
            idle (mkDb (users db)
                    (semesters db ++
                       [mkSemesterRow (next_rowid (s_id <$> semesters db) (seq_semesters db))
                          term_ year_])
                    (courses db) (assignments db)
                    (seq_users db) (next_rowid (s_id <$> semesters db) (seq_semesters db))
                    (seq_courses db) (seq_assignments db)) r)
      else (-1, idle db r)).2)) as Hins.
    { intros r. destruct (_ && _); cbn; [|done].
      destruct Href as [Hc Hu Hs]. split; cbn; try done.
      rewrite fmap_app. by apply Forall_elem_of_grow. }
    destruct (nextOutcome engine); [|apply Hins].
    destruct (s_id <$> filter _ _); [apply Hins|done].
  - destruct (decide (editCourseId_ < 0)) as [Hadd|Hedit].
    + rewrite CourseDialog_onSave_add_run by done.
      destruct (nextOutcome engine); [|done]. cbn.
      destruct (Hopen Hadd) as [Huser Hsem].
      destruct Href as [Hc Hu Hs]. split; cbn.
      * rewrite fmap_app. by apply Forall_elem_of_grow.
      * apply Forall_app. split; [done|]. constructor; [exact Huser|constructor].
      * apply Forall_app. split; [done|]. constructor; [exact Hsem|constructor].
    + rewrite CourseDialog_onSave_edit_run by lia.
      destruct (nextOutcome engine); [|done]. cbn.
      destruct Href as [Hc Hu Hs].
      assert (c_id <$> (updatedCourse code_ name_
                          (if bool_decide (color_ = "") then defaultColor else color_)
                          editCourseId_ <$> courses db) = c_id <$> courses db) as Hids.
      { rewrite <- list_fmap_compose. apply list_fmap_ext. intros i c _. cbn.
        unfold updatedCourse. by case_bool_decide. }
      split; cbn.
      * by rewrite Hids.
      * apply Forall_fmap. eapply Forall_impl; [exact Hu|]. intros c Hcu. cbn.
        unfold updatedCourse. by destruct (bool_decide (c_id c = editCourseId_)).
      * apply Forall_fmap. eapply Forall_impl; [exact Hs|]. intros c Hcs. cbn.
        unfold updatedCourse. by destruct (bool_decide (c_id c = editCourseId_)).
  - destruct (decide (editAssignmentId_ < 0)) as [Hadd|Hedit].
    + rewrite AssignmentDialog_onSave_add_run by done.
      destruct (nextOutcome engine); [|done]. cbn.
      destruct Href as [Hc Hu Hs]. split; cbn; try done.
      apply Forall_app. split; [done|]. constructor; [|constructor]. by apply Hopen.
    + rewrite AssignmentDialog_onSave_edit_run by lia.
      destruct (nextOutcome engine); [|done]. cbn.
      destruct Href as [Hc Hu Hs]. split; cbn; try done.
      apply Forall_fmap. eapply Forall_impl; [exact Hc|]. intros a Ha. cbn.
      unfold updatedAssignment. by destruct (bool_decide (a_id a = editAssignmentId_)).
  - destruct currentItem as [courseId|]; [|done].
    destruct answerYes; [|done]. rewrite deleteCourse_run. cbn.
    destruct (nextOutcome engine) eqn:Hfirst;
      [|destruct Hdel; by exists courseId].
    destruct Href as [Hc Hu Hs]. split; cbn.
    + rewrite Forall_forall in *. intros a Ha.
      apply list_elem_of_filter in Ha as [Hne Ha].
      destruct (nextOutcome (tail engine)); [|by apply Hc].
      specialize (Hc a Ha). apply list_elem_of_fmap in Hc as (c & Hid & Hin).
      rewrite Hid. apply list_elem_of_fmap_2. apply list_elem_of_filter.
      split; [congruence|done].
    + destruct (nextOutcome (tail engine)); [|done]. by apply Forall_filter_keep.
    + destruct (nextOutcome (tail engine)); [|done]. by apply Forall_filter_keep.
  - destruct currentItem as [courseId|]; [|done].
    destruct currentRow as [assignId|]; [|done].
    destruct answerYes; [|done]. rewrite deleteAssignment_run.
    destruct (nextOutcome engine); [|done]. cbn.
    destruct Href as [Hc Hu Hs]. split; cbn; try done.
    by apply Forall_filter_keep.
  - by destruct (reloadUpcoming_session userId_ semesterId_ (idle db engine)) as [-> _].
Qed.

(** Deleting MATH200 keeps the references when only the course's own
    [DELETE] fails, and breaks them when only the assignments' fails. *)
Lemma references_kept_witness :
  references_ok twoCourses ∧
  references_ok (view (fire sampleDigest (DeleteCourse (Some 2) true)
                         (idle twoCourses [true; false]))) ∧
  ¬ references_ok (view (fire sampleDigest (DeleteCourse (Some 2) true)
                           (idle twoCourses [false; true]))).
Proof.
  assert (references_ok twoCourses) as Href.
  { split; cbn; apply (bool_decide_unpack _); vm_compute; exact I. }
  split; [exact Href|]. split.
  - apply (references_kept sampleDigest (DeleteCourse (Some 2) true) twoCourses
             [true; false] Href I).
    intros (courseId & _ & Hfalse). discriminate.
  - intros [Hc _ _]. cbn in Hc. rewrite Forall_forall in Hc.
    specialize (Hc problemSet). cbn in Hc.
    assert (problemSet ∈ [essay; problemSet]) as Hin by (right; left).
    specialize (Hc Hin). apply list_elem_of_singleton in Hc. discriminate.
Defined.
